(** * Deployment utilities of rutsky/kubernetes

    A shallow embedding of [pkg/util/deployment] (classification of the
    replication controllers of a deployment, readiness counting, revision
    annotation) and of [pkg/apis/extensions/helpers.go] (the scale
    subresource of a deployment), with the properties of these functions.

    Conventions of the embedding:
    - Go [int], [int64] and [uint64] are integers of [Z]; where the source
      computes in a fixed width the wrap-around is written out;
    - a Go [string] is a [string] of 8-bit characters;
    - a Go [map[string]string] is a reference into a heap of finite maps
      ([gmap string string]); the nil map is the reference [None];
    - a Go [(value, error)] result is a pair whose second component is an
      optional error, or a sum where the source only looks at one of them. *)

From Stdlib Require Import ZArith Lia Ascii String List.
From stdpp Require Import base option list strings gmap fin_maps.

Local Open Scope Z_scope.

(** ** Fixed-width integers *)

Definition wrapU64 (z : Z) : Z := z mod 2 ^ 64.

Definition wrapI64 (z : Z) : Z := (z + 2 ^ 63) mod 2 ^ 64 - 2 ^ 63.

Definition maxInt64 : Z := 2 ^ 63 - 1.
Definition minInt64 : Z := - 2 ^ 63.

(** ** strconv.ParseInt

    [Revision] calls [strconv.ParseInt(v, 10, 64)] of the Go standard
    library.  The model follows the library's code for a base between 2 and
    36 (the base-0 prefix detection is not reachable from [Revision]). *)

Module Strconv.

Inductive Err := ErrSyntax | ErrRange.

(** [*strconv.NumError]: the failing function, the input, the reason. *)
Record NumError := mkNumError { Func : string; Num : string; Reason : Err }.

Definition byteOf (c : ascii) : Z := Z.of_N (N_of_ascii c).

(** The [switch] on the byte [d] in the digit loop of [ParseUint]. *)
Definition digitVal (d : Z) : option Z :=
  if (48 <=? d) && (d <=? 57) then Some (d - 48)
  else if (97 <=? d) && (d <=? 122) then Some (d - 97 + 10)
  else if (65 <=? d) && (d <=? 90) then Some (d - 65 + 10)
  else None.

Definition cutoff64 (base : Z) : Z := (2 ^ 64 - 1) / base + 1.

(** The loop [for i := 0; i < len(s); i++] of [ParseUint], with the
    accumulator [n : uint64]. *)
Fixpoint parseUintLoop (base maxVal : Z) (s : string) (n : Z) : Z * option Err :=
  match s with
  | EmptyString => (n, None)
  | String c s' =>
      match digitVal (byteOf c) with
      | None => (0, Some ErrSyntax)
      | Some v =>
          if base <=? v then (0, Some ErrSyntax)
          else if cutoff64 base <=? n then (2 ^ 64 - 1, Some ErrRange)
          else
            let n' := wrapU64 (n * base) in
            let n1 := wrapU64 (n' + v) in
            if (n1 <? n') || (maxVal <? n1) then (2 ^ 64 - 1, Some ErrRange)
            else parseUintLoop base maxVal s' n1
      end
  end.

Definition ParseUint (s : string) (base bitSize : Z) : Z * option NumError :=
  match s with
  | EmptyString => (0, Some (mkNumError "ParseUint" s ErrSyntax))
  | _ =>
      match parseUintLoop base (2 ^ bitSize - 1) s 0 with
      | (n, None) => (n, None)
      | (n, Some e) => (n, Some (mkNumError "ParseUint" s e))
      end
  end.

(** The second half of [ParseInt], after the sign has been picked off:
    "convert unsigned and check range".  [s0] is the whole input. *)
Definition convertUnsigned (s0 : string) (neg : bool) (s : string)
    (base bitSize : Z) : Z * option NumError :=
  let '(un, err) := ParseUint s base bitSize in
  let syntaxFailure :=
    match err with
    | Some e => match Reason e with ErrRange => false | ErrSyntax => true end
    | None => false
    end in
  if syntaxFailure then (0, Some (mkNumError "ParseInt" s0 ErrSyntax))
  else
    let cutoff := 2 ^ (bitSize - 1) in
    if negb neg && (cutoff <=? un)
    then (wrapI64 (cutoff - 1), Some (mkNumError "ParseInt" s0 ErrRange))
    else if neg && (cutoff <? un)
    then (wrapI64 (- wrapI64 cutoff), Some (mkNumError "ParseInt" s0 ErrRange))
    else
      let n := wrapI64 un in
      (if neg then wrapI64 (- n) else n, None).

Definition ParseInt (s : string) (base bitSize : Z) : Z * option NumError :=
  match s with
  | EmptyString => (0, Some (mkNumError "ParseInt" s ErrSyntax))
  | String c0 rest =>
      if Ascii.eqb c0 "+" then convertUnsigned s false rest base bitSize
      else if Ascii.eqb c0 "-" then convertUnsigned s true rest base bitSize
      else convertUnsigned s false s base bitSize
  end.

(** *** What "a well-formed base-10 64-bit integer string" means

    Written from the words of the specification, independently of the
    parsing loop: an optional sign, then one or more decimal digits, whose
    value lies between [-2^63] and [2^63 - 1]. *)

Definition isDecimalDigit (c : ascii) : bool :=
  (48 <=? byteOf c) && (byteOf c <=? 57).

Fixpoint allDecimalDigits (s : string) : bool :=
  match s with
  | EmptyString => true
  | String c s' => isDecimalDigit c && allDecimalDigits s'
  end.

(** The number written by the digits [s] after the digits that gave [acc]. *)
Fixpoint decimalValue (s : string) (acc : Z) : Z :=
  match s with
  | EmptyString => acc
  | String c s' => decimalValue s' (10 * acc + (byteOf c - 48))
  end.

Definition splitSign (s : string) : bool * string :=
  match s with
  | String "+" r => (false, r)
  | String "-" r => (true, r)
  | _ => (false, s)
  end.

Definition decimalInt64 (s : string) : option Z :=
  let '(neg, ds) := splitSign s in
  match ds with
  | EmptyString => None
  | _ =>
      if allDecimalDigits ds then
        let v := if neg then - decimalValue ds 0 else decimalValue ds 0 in
        if (minInt64 <=? v) && (v <=? maxInt64) then Some v else None
      else None
  end.

End Strconv.

(** ** time.Time and time.Duration

    An instant is counted in nanoseconds from the zero instant of the Go
    [time] package (January 1 of year 1, 00:00:00 UTC), so that [IsZero]
    is the test against [0]; a [time.Duration] is an [int64] count of
    nanoseconds. *)

Module GoTime.

Definition Time := Z.
Definition Duration := Z.

Definition Second : Duration := 1000000000.

Definition IsZero (t : Time) : bool := t =? 0.
Definition Add (t : Time) (d : Duration) : Time := t + d.
Definition Before (t u : Time) : bool := t <? u.

End GoTime.

(** ** The heap of maps

    A Go map value is a reference: copying a struct that holds a map copies
    the reference, and both copies see a later write.  Every
    [map[string]string] of the API objects is therefore a [mapref] into a
    heap; functions that read or allocate maps run in the state monad [M]. *)

Abbreviation loc := positive (only parsing).
Abbreviation LabelMap := (gmap string string) (only parsing).
Abbreviation Heap := (gmap positive (gmap string string)) (only parsing).

Definition mapref : Type := option loc.

(** Reading through a reference; ranging over or indexing the nil map of
    Go behaves as on the empty map. *)
Definition deref (h : Heap) (r : mapref) : LabelMap :=
  match r with
  | None => ∅
  | Some l => default ∅ (h !! l)
  end.

Definition M (A : Type) : Type := Heap -> A * Heap.

Definition ret {A} (a : A) : M A := fun h => (a, h).

Definition bind {A B} (m : M A) (k : A -> M B) : M B :=
  fun h => let '(a, h') := m h in k a h'.

(** A computation that only reads the heap. *)
Definition reads {A} (f : Heap -> A) : M A := fun h => (f h, h).

(** [map[string]string{}] followed by its filling: a fresh map. *)
Definition newMap (m : LabelMap) : M mapref :=
  fun h => let l := fresh (dom h) in (Some l, <[l := m]> h).

Declare Scope heap_scope.
Delimit Scope heap_scope with heap.
Notation "x <- c1 ;; c2" := (bind c1 (fun x => c2))
  (at level 100, c1 at next level, right associativity) : heap_scope.

(** Go's [error] values are modelled by their message. *)
Definition error : Type := string.

(** ** API objects

    The type declarations of [pkg/api] and [pkg/apis/extensions] are not
    among the sources; the records below carry the fields that the
    functions read.  [api.PodSpec] is never inspected by this code, only
    copied and compared, and is a parameter with decidable equality. *)

Section Deployment.

Context {PodSpec : Type} `{EqDecision PodSpec}.

Record ObjectMeta := mkObjectMeta {
  Name : string;
  Namespace : string;
  CreationTimestamp : GoTime.Time;
  Labels : mapref;
  Annotations : mapref
}.

Record PodTemplateSpec := mkPodTemplateSpec {
  tmpl_ObjectMeta : ObjectMeta;
  tmpl_Spec : PodSpec
}.

Record ReplicationControllerSpec := mkReplicationControllerSpec {
  rc_Replicas : Z;
  rc_Selector : mapref;
  rc_Template : option PodTemplateSpec   (* a pointer, possibly nil *)
}.

Record ReplicationController := mkReplicationController {
  rc_ObjectMeta : ObjectMeta;
  rc_Spec : ReplicationControllerSpec
}.

Inductive ConditionStatus := ConditionTrue | ConditionFalse | ConditionUnknown.

(** [api.PodConditionType] is a string type; [api.PodReady] is "Ready". *)
Definition PodReady : string := "Ready".

Record PodCondition := mkPodCondition {
  Type_ : string;
  Status : ConditionStatus;
  LastTransitionTime : GoTime.Time
}.

Record PodStatus := mkPodStatus { Conditions : list PodCondition }.

Record Pod := mkPod {
  pod_ObjectMeta : ObjectMeta;
  pod_Status : PodStatus
}.

Record PodList := mkPodList { Items : list Pod }.

Record DeploymentSpec := mkDeploymentSpec {
  d_Replicas : Z;
  d_Selector : mapref;
  d_Template : PodTemplateSpec;
  UniqueLabelKey : string
}.

Record DeploymentStatus := mkDeploymentStatus { ds_Replicas : Z }.

Record Deployment := mkDeployment {
  d_ObjectMeta : ObjectMeta;
  d_Spec : DeploymentSpec;
  d_Status : DeploymentStatus
}.

Record ScaleSpec := mkScaleSpec { ss_Replicas : Z }.

Record ScaleStatus := mkScaleStatus {
  st_Replicas : Z;
  st_Selector : mapref
}.

Record Scale := mkScale {
  s_ObjectMeta : ObjectMeta;
  s_Spec : ScaleSpec;
  s_Status : ScaleStatus
}.

(** *** Label selectors *)

Definition Selector : Type := gmap string string.

(** Modelled from the spec: [labels.SelectorFromSet] of [pkg/labels] is
    not among the sources.  The specification describes exact-match
    selection on a mapping from string to string: the selector made from
    a label set holds the pairs of the set at the time it is made. *)
Definition SelectorFromSet (h : Heap) (ls : mapref) : Selector := deref h ls.

(** Modelled from the spec: [Selector.Matches] of [pkg/labels] is not
    among the sources.  Exact label-set match: the selector matches the
    label sets that carry each of its pairs. *)
Definition Matches (sel : Selector) (ls : gmap string string) : bool :=
  bool_decide (map_Forall (fun k v => ls !! k = Some v) sel).

Record ListOptions := mkListOptions { LabelSelector : Selector }.

(** The listing callbacks, of the Go types
    [func(string, api.ListOptions)] to a pod list and an error, and to a
    slice of replication controllers and an error.  The source looks at
    the list only when the error is nil, hence the sum.  The objects a callback
    returns refer to maps of the heap the caller runs in. *)
Definition PodLister : Type := string -> ListOptions -> PodList + error.
Definition RcLister : Type := string -> ListOptions -> list ReplicationController + error.

(** [clientset.Interface], as far as this code uses it:
    [c.Core().Pods(ns).List(options)] and
    [c.Core().ReplicationControllers(ns).List(options)]. *)
Record Interface := mkInterface {
  ListPods : PodLister;
  ListReplicationControllers : RcLister
}.

(** *** api.Semantic.DeepEqual on pod templates *)

(** Modelled from the spec: [api.Semantic.DeepEqual] of [pkg/api] is not
    among the sources.  The specification has it compare the full shape
    of the templates.  Deep equality follows references: two maps are
    equal when their contents are, and a nil map equals an empty one. *)
Definition ObjectMeta_DeepEqual (h : Heap) (a b : ObjectMeta) : bool :=
  bool_decide (Name a = Name b) &&
  bool_decide (Namespace a = Namespace b) &&
  bool_decide (CreationTimestamp a = CreationTimestamp b) &&
  bool_decide (deref h (Labels a) = deref h (Labels b)) &&
  bool_decide (deref h (Annotations a) = deref h (Annotations b)).

(** Modelled from the spec: structural equality of two pointers to pod
    templates, as [api.Semantic.DeepEqual] of [pkg/api] decides it: the
    pointed templates are deeply equal; a nil pointer equals only a nil
    pointer. *)
Definition DeepEqual (h : Heap) (a b : option PodTemplateSpec) : bool :=
  match a, b with
  | None, None => true
  | Some x, Some y =>
      ObjectMeta_DeepEqual h (tmpl_ObjectMeta x) (tmpl_ObjectMeta y) &&
      bool_decide (tmpl_Spec x = tmpl_Spec y)
  | _, _ => false
  end.

(** ** pkg/util/deployment *)

Local Open Scope heap_scope.

(** The revision annotation of a deployment's replication controllers,
    which records its rollout sequence. *)
Definition RevisionAnnotation : string := "deployment.kubernetes.io/revision".

(** Modelled from the spec: [labelsutil.CloneAndAddLabel] of
    [pkg/util/labels] is not among the sources.  The specification has it
    return a copy of the label mapping with the value written under the
    given key, the other labels preserved and a label already under that
    key overwritten; the given mapping is left as it is. *)
Definition CloneAndAddLabel (labels : mapref) (labelKey labelValue : string)
    : M mapref :=
  m <- reads (fun h => deref h labels) ;;
  newMap (<[labelKey := labelValue]> m).

Definition withLabels (meta : ObjectMeta) (labels : mapref) : ObjectMeta :=
  mkObjectMeta (Name meta) (Namespace meta) (CreationTimestamp meta)
               labels (Annotations meta).

(** The values of a Go map in the order of a [for key := range m] loop.
    Go leaves that order unspecified; the model takes the order of
    [map_to_list], and the properties proved of the result slices
    (membership, absence of repeated names) do not depend on it. *)
Definition rangeValues {A} (m : gmap string A) : list A := (map_to_list m).*2.

Section Classifier.

(** [podutil.GetPodTemplateSpecHash] of [pkg/util/pod] is not among the
    sources: any function of the template and of the maps it refers to,
    its result given as the decimal string that is stamped as label. *)
Variable GetPodTemplateSpecHash : Heap -> PodTemplateSpec -> string.

(** Returns the desired PodTemplateSpec for the new RC corresponding to
    the given deployment. *)
Definition GetNewRCTemplate (deployment : Deployment) : M PodTemplateSpec :=
  let newRCTemplate :=
    mkPodTemplateSpec (tmpl_ObjectMeta (d_Template (d_Spec deployment)))
                      (tmpl_Spec (d_Template (d_Spec deployment))) in
  hash <- reads (fun h => GetPodTemplateSpecHash h newRCTemplate) ;;
  labels <- CloneAndAddLabel
              (Labels (tmpl_ObjectMeta (d_Template (d_Spec deployment))))
              (UniqueLabelKey (d_Spec deployment))
              hash ;;
  ret (mkPodTemplateSpec (withLabels (tmpl_ObjectMeta newRCTemplate) labels)
                         (tmpl_Spec newRCTemplate)).

(** The body of [for _, rc := range rcList] in [GetOldRCsFromLists],
    for one pod; [acc] is the pair of the Go maps [oldRCs] and
    [allOldRCs]. *)
Definition rcStep (h : Heap) (newRCTemplate : PodTemplateSpec)
    (podLabelsSelector : mapref)
    (acc : gmap string ReplicationController * gmap string ReplicationController)
    (rc : ReplicationController)
    : gmap string ReplicationController * gmap string ReplicationController :=
  let '(oldRCs, allOldRCs) := acc in
  let rcLabelsSelector := SelectorFromSet h (rc_Selector (rc_Spec rc)) in
  if DeepEqual h (rc_Template (rc_Spec rc)) (Some newRCTemplate) then
    acc                                                      (* continue *)
  else
    let allOldRCs := <[Name (rc_ObjectMeta rc) := rc]> allOldRCs in
    if Matches rcLabelsSelector (deref h podLabelsSelector)
    then (<[Name (rc_ObjectMeta rc) := rc]> oldRCs, allOldRCs)
    else (oldRCs, allOldRCs).

(** The body of [for _, pod := range podList.Items]. *)
Definition podStep (h : Heap) (newRCTemplate : PodTemplateSpec)
    (rcList : list ReplicationController)
    (acc : gmap string ReplicationController * gmap string ReplicationController)
    (pod : Pod)
    : gmap string ReplicationController * gmap string ReplicationController :=
  let podLabelsSelector := Labels (pod_ObjectMeta pod) in
  fold_left (rcStep h newRCTemplate podLabelsSelector) rcList acc.

(** [GetOldRCsFromLists] returns two sets of old RCs targeted by the
    given deployment; the first does not include the ones with no pods.
    The result is the triple of the two slices ([None] for a nil slice)
    and of the error. *)
Definition GetOldRCsFromLists (deployment : Deployment) (c : Interface)
    (getPodList : PodLister) (getRcList : RcLister)
    : M (option (list ReplicationController) *
         option (list ReplicationController) * option error) :=
  let namespace := Namespace (d_ObjectMeta deployment) in
  selector <- reads (fun h => SelectorFromSet h (d_Selector (d_Spec deployment))) ;;
  let options := mkListOptions selector in
  match getPodList namespace options with
  | inr err => ret (None, None, Some ("error listing pods: " +:+ err))
  | inl podList =>
      match getRcList namespace options with
      | inr err =>
          ret (None, None,
               Some ("error listing replication controllers: " +:+ err))
      | inl rcList =>
          newRCTemplate <- GetNewRCTemplate deployment ;;
          maps <- reads (fun h =>
                    fold_left (podStep h newRCTemplate rcList)
                              (Items podList) (∅, ∅)) ;;
          let requiredRCs := rangeValues (fst maps) in
          let allRCs := rangeValues (snd maps) in
          ret (Some requiredRCs, Some allRCs, None)
      end
  end.

Definition GetOldRCs (deployment : Deployment) (c : Interface) :=
  GetOldRCsFromLists deployment c (ListPods c) (ListReplicationControllers c).

(** The loop [for i := range rcList] of [GetNewRCFromList]. *)
Fixpoint findNewRC (h : Heap) (newRCTemplate : PodTemplateSpec)
    (rcList : list ReplicationController) : option ReplicationController :=
  match rcList with
  | [] => None
  | rc :: rest =>
      if DeepEqual h (rc_Template (rc_Spec rc)) (Some newRCTemplate)
      then Some rc
      else findNewRC h newRCTemplate rest
  end.

(** [GetNewRCFromList] returns an RC that matches the intent of the
    given deployment, nil if the new RC does not exist yet. *)
Definition GetNewRCFromList (deployment : Deployment) (c : Interface)
    (getRcList : RcLister) : M (option ReplicationController * option error) :=
  let namespace := Namespace (d_ObjectMeta deployment) in
  selector <- reads (fun h => SelectorFromSet h (d_Selector (d_Spec deployment))) ;;
  match getRcList namespace (mkListOptions selector) with
  | inr err =>
      ret (None, Some ("error listing replication controllers: " +:+ err))
  | inl rcList =>
      newRCTemplate <- GetNewRCTemplate deployment ;;
      found <- reads (fun h => findNewRC h newRCTemplate rcList) ;;
      ret (found, None)
  end.

Definition GetNewRC (deployment : Deployment) (c : Interface) :=
  GetNewRCFromList deployment c (ListReplicationControllers c).

End Classifier.

(** Modelled from the spec: [labelsutil.CloneAndRemoveLabel] of
    [pkg/util/labels] is not among the sources.  The specification has it
    return a copy of the label mapping without the label under the given
    key; stripping a key that is absent changes nothing and is no error. *)
Definition CloneAndRemoveLabel (labels : mapref) (labelKey : string) : M mapref :=
  m <- reads (fun h => deref h labels) ;;
  newMap (delete labelKey m).

(** The three assignments of [SetFromRCTemplate], on the deployment they
    are made to. *)
Definition setTemplateObjectMeta (d : Deployment) (meta : ObjectMeta) : Deployment :=
  mkDeployment (d_ObjectMeta d)
    (mkDeploymentSpec (d_Replicas (d_Spec d)) (d_Selector (d_Spec d))
       (mkPodTemplateSpec meta (tmpl_Spec (d_Template (d_Spec d))))
       (UniqueLabelKey (d_Spec d)))
    (d_Status d).

Definition setTemplateSpec (d : Deployment) (spec : PodSpec) : Deployment :=
  mkDeployment (d_ObjectMeta d)
    (mkDeploymentSpec (d_Replicas (d_Spec d)) (d_Selector (d_Spec d))
       (mkPodTemplateSpec (tmpl_ObjectMeta (d_Template (d_Spec d))) spec)
       (UniqueLabelKey (d_Spec d)))
    (d_Status d).

Definition setTemplateLabels (d : Deployment) (labels : mapref) : Deployment :=
  setTemplateObjectMeta d (withLabels (tmpl_ObjectMeta (d_Template (d_Spec d))) labels).

(** [SetFromRCTemplate] sets the desired PodTemplateSpec from an RC
    template to the given deployment.  The deployment is given by
    pointer and written in the store of deployments; the template is
    given by value.  The pointer is returned; on a nil or dangling
    pointer the Go function panics and nothing is returned. *)
Definition SetFromRCTemplate (deployment : loc) (template : PodTemplateSpec)
    (store : gmap positive Deployment)
    : M (option loc * gmap positive Deployment) :=
  match store !! deployment with
  | None => ret (None, store)
  | Some d =>
      let d := setTemplateObjectMeta d (tmpl_ObjectMeta template) in
      let d := setTemplateSpec d (tmpl_Spec template) in
      labels <- CloneAndRemoveLabel
                  (Labels (tmpl_ObjectMeta (d_Template (d_Spec d))))
                  (UniqueLabelKey (d_Spec d)) ;;
      let d := setTemplateLabels d labels in
      ret (Some deployment, <[deployment := d]> store)
  end.

(** Returns the sum of Replicas of the given replication controllers
    (a Go [int], taken as 64 bits wide). *)
Definition GetReplicaCountForRCs (replicationControllers : list ReplicationController) : Z :=
  fold_left (fun totalReplicaCount rc =>
               wrapI64 (totalReplicaCount + rc_Replicas (rc_Spec rc)))
            replicationControllers 0.

(** Modelled from the spec: [api.IsPodReady] of [pkg/api] is not among
    the sources.  The pod's overall condition state is ready, in the
    Kubernetes sense: the pod has a Ready-type condition and the first
    such condition has the status true. *)
Definition IsPodReadyConditionTrue (pod : Pod) : bool :=
  match List.find (fun c => String.eqb (Type_ c) PodReady)
                  (Conditions (pod_Status pod)) with
  | Some c => match Status c with ConditionTrue => true | _ => false end
  | None => false
  end.

Section Readiness.

(** [api.IsPodReady] of [pkg/api] is not among the sources: the pod's
    overall condition state, any predicate on pods. *)
Variable IsPodReady : Pod -> bool.

(** The loop [for _, c := range pod.Status.Conditions] of
    [getReadyPodsCount], from the counter before it to the counter after
    it.  The source reads the clock with [time.Now()] at each Ready-type
    condition it tests; the model is given one reading [now] for the
    whole call, as the contract of the specification is.  The product
    [time.Duration(minReadySeconds) * time.Second] is an [int64] and
    wraps around.  The counter is bounded by the number of pods and
    stays clear of the limits of [int]. *)
Fixpoint conditionsLoop (conditions : list PodCondition)
    (minReadySeconds : Z) (now : GoTime.Time) (readyPodCount : Z) : Z :=
  match conditions with
  | [] => readyPodCount
  | c :: rest =>
      if String.eqb (Type_ c) PodReady then
        let minReadySecondsDuration :=
          wrapI64 (minReadySeconds * GoTime.Second) in
        if (minReadySeconds <=? 0) ||
           (negb (GoTime.IsZero (LastTransitionTime c)) &&
            GoTime.Before
              (GoTime.Add (LastTransitionTime c) minReadySecondsDuration)
              now)
        then readyPodCount + 1                                 (* break *)
        else conditionsLoop rest minReadySeconds now readyPodCount
      else conditionsLoop rest minReadySeconds now readyPodCount
  end.

Definition getReadyPodsCount (pods : list Pod) (minReadySeconds : Z)
    (now : GoTime.Time) : Z :=
  fold_left (fun readyPodCount pod =>
               if IsPodReady pod
               then conditionsLoop (Conditions (pod_Status pod))
                                   minReadySeconds now readyPodCount
               else readyPodCount)
            pods 0.

(** The loop of [getPodsForRCs], from the slice [allPods] gathered so
    far. *)
Fixpoint getPodsLoop (c : Interface)
    (replicationControllers : list ReplicationController)
    (allPods : list Pod) : M (list Pod * option error) :=
  match replicationControllers with
  | [] => ret (allPods, None)
  | rc :: rest =>
      selector <- reads (fun h => SelectorFromSet h (rc_Selector (rc_Spec rc))) ;;
      let options := mkListOptions selector in
      match ListPods c (Namespace (rc_ObjectMeta rc)) options with
      | inr err => ret (allPods, Some ("error listing pods: " +:+ err))
      | inl podList => getPodsLoop c rest (allPods ++ Items podList)
      end
  end.

Definition getPodsForRCs (c : Interface)
    (replicationControllers : list ReplicationController)
    : M (list Pod * option error) :=
  getPodsLoop c replicationControllers [].

(** Returns the number of available pods corresponding to the given
    RCs. *)
Definition GetAvailablePodsForRCs (c : Interface)
    (rcs : list ReplicationController) (minReadySeconds : Z)
    (now : GoTime.Time) : M (Z * option error) :=
  res <- getPodsForRCs c rcs ;;
  match snd res with
  | Some err => ret (0, Some err)
  | None => ret (getReadyPodsCount (fst res) minReadySeconds now, None)
  end.

End Readiness.

(** [Revision] returns the revision number of the input RC. *)
Definition Revision (rc : ReplicationController)
    : M (Z * option Strconv.NumError) :=
  annotations <- reads (fun h => deref h (Annotations (rc_ObjectMeta rc))) ;;
  match annotations !! RevisionAnnotation with
  | None => ret (0, None)
  | Some v => ret (Strconv.ParseInt v 10 64)
  end.

(** ** pkg/apis/extensions/helpers.go

    [ScaleFromDeployment] takes a pointer to the deployment; the
    deployments live in a store and the function is run on it.  A nil or
    dangling pointer makes the Go function panic: no scale is returned. *)
Definition ScaleFromDeployment (deployment : loc)
    (store : gmap positive Deployment)
    : option Scale * gmap positive Deployment :=
  match store !! deployment with
  | None => (None, store)
  | Some d =>
      (Some (mkScale
               (mkObjectMeta (Name (d_ObjectMeta d))
                             (Namespace (d_ObjectMeta d))
                             (CreationTimestamp (d_ObjectMeta d))
                             None None)
               (mkScaleSpec (d_Replicas (d_Spec d)))
               (mkScaleStatus (ds_Replicas (d_Status d))
                              (d_Selector (d_Spec d)))),
       store)
  end.

(** ** Vocabulary of the statements *)

(** The list options that [GetOldRCsFromLists] and [GetNewRCFromList]
    hand to the listing callbacks, and the namespace they list. *)
Definition deploymentOptions (h : Heap) (deployment : Deployment) : ListOptions :=
  mkListOptions (SelectorFromSet h (d_Selector (d_Spec deployment))).

Definition deploymentNamespace (deployment : Deployment) : string :=
  Namespace (d_ObjectMeta deployment).

Definition rcName (rc : ReplicationController) : string :=
  Name (rc_ObjectMeta rc).

(** The controller [rc] is not the new one: its template differs from the
    desired template [newRCTemplate]. *)
Definition isOld (h : Heap) (newRCTemplate : PodTemplateSpec)
    (rc : ReplicationController) : Prop :=
  DeepEqual h (rc_Template (rc_Spec rc)) (Some newRCTemplate) = false.

(** The selector of [rc] matches the labels of [pod]. *)
Definition selects (h : Heap) (rc : ReplicationController) (pod : Pod) : Prop :=
  Matches (SelectorFromSet h (rc_Selector (rc_Spec rc)))
          (deref h (Labels (pod_ObjectMeta pod))) = true.

(** What the loops of [GetOldRCsFromLists] maintain of the Go maps
    [oldRCs] and [allOldRCs]. *)
Definition oldMapsInv (h : Heap) (newRCTemplate : PodTemplateSpec)
    (rcList : list ReplicationController) (pods : list Pod)
    (maps : gmap string ReplicationController * gmap string ReplicationController)
    : Prop :=
  (forall n rc, maps.2 !! n = Some rc ->
     rcName rc = n /\ rc ∈ rcList /\ isOld h newRCTemplate rc) /\
  (forall n rc, maps.1 !! n = Some rc ->
     rcName rc = n /\ rc ∈ rcList /\ isOld h newRCTemplate rc /\
     (exists pod, pod ∈ pods /\ selects h rc pod) /\
     is_Some (maps.2 !! n)).

(** The condition [c] makes [getReadyPodsCount] count its pod. *)
Definition conditionPasses (minReadySeconds : Z) (now : GoTime.Time)
    (c : PodCondition) : bool :=
  String.eqb (Type_ c) PodReady &&
  ((minReadySeconds <=? 0) ||
   (negb (GoTime.IsZero (LastTransitionTime c)) &&
    GoTime.Before
      (GoTime.Add (LastTransitionTime c) (wrapI64 (minReadySeconds * GoTime.Second)))
      now)).

(** A reference is allocated: it is nil or points into the heap. *)
Definition allocated (h : Heap) (r : mapref) : Prop :=
  match r with
  | None => True
  | Some l => l ∈ dom h
  end.





(** The sum of the desired replica counts, as a number. *)
Definition totalReplicas (rcs : list ReplicationController) : Z :=
  foldr (fun rc total => rc_Replicas (rc_Spec rc) + total) 0 rcs.

(** The pods that the client lists for the controller [rc], as
    [getPodsForRCs] asks for them. *)
Definition podsOfRC (c : Interface) (h : Heap) (rc : ReplicationController)
    : PodList + error :=
  ListPods c (Namespace (rc_ObjectMeta rc))
           (mkListOptions (SelectorFromSet h (rc_Selector (rc_Spec rc)))).

(** The pods of that listing, none when the listing fails. *)
Definition listedPods (c : Interface) (h : Heap) (rc : ReplicationController)
    : list Pod :=
  match podsOfRC c h rc with
  | inl podList => Items podList
  | inr _ => []
  end.

Section Counting.

Variable IsPodReady : Pod -> bool.

(** [pod] is counted as ready: wherever it stands in a list of pods, it
    adds one to the count of the others. *)
Definition counted (pod : Pod) (minReadySeconds : Z) (now : GoTime.Time) : Prop :=
  forall before after,
    getReadyPodsCount IsPodReady (before ++ pod :: after) minReadySeconds now =
    getReadyPodsCount IsPodReady (before ++ after) minReadySeconds now + 1.

(** [pod] is not counted: it adds nothing to the count of the others. *)
Definition notCounted (pod : Pod) (minReadySeconds : Z) (now : GoTime.Time) : Prop :=
  forall before after,
    getReadyPodsCount IsPodReady (before ++ pod :: after) minReadySeconds now =
    getReadyPodsCount IsPodReady (before ++ after) minReadySeconds now.

Definition indicator (b : bool) : Z := if b then 1 else 0.

Definition podPasses (minReadySeconds : Z) (now : GoTime.Time) (pod : Pod) : bool :=
  IsPodReady pod &&
  existsb (conditionPasses minReadySeconds now) (Conditions (pod_Status pod)).

End Counting.

End Deployment.

(** ** A deployment and its controllers

    The scenario of the specification: a deployment with selector
    [app = x] whose template hashes to [h1]; the controllers [rc-old]
    (template hash [h0]) and [rc-new] (template hash [h1]); pods labelled
    [app = x].  Pod specs are left out ([unit]). *)

Module Scenario.

Definition appx : gmap string string := {["app" := "x"]}.

(** The maps of the objects: 1 the selectors and the pod labels, 2 the
    labels of the deployment's template, 3 and 4 the labels of the
    templates of [rc-old] and [rc-new], 5 to 7 annotations. *)
Definition heap0 : gmap positive (gmap string string) :=
  <[1%positive := appx]>
 (<[2%positive := appx]>
 (<[3%positive := <["pod-template-hash" := "h0"]> appx]>
 (<[4%positive := <["pod-template-hash" := "h1"]> appx]>
 (<[5%positive := {[RevisionAnnotation := "7"]}]>
 (<[6%positive := {[RevisionAnnotation := "abc"]}]>
 (<[7%positive := {["owner" := "web"]}]> ∅)))))).

Definition meta (name : string) (labels annotations : mapref) : ObjectMeta :=
  mkObjectMeta name "default" 0 labels annotations.

Definition template (labels : mapref) : @PodTemplateSpec unit :=
  mkPodTemplateSpec (meta "" labels None) tt.

Definition deployment0 : @Deployment unit :=
  mkDeployment (meta "web" None None)
    (mkDeploymentSpec 3 (Some 1%positive) (template (Some 2%positive))
                      "pod-template-hash")
    (mkDeploymentStatus 5).

Definition controller (name : string) (replicas : Z) (labels annotations : mapref)
    : @ReplicationController unit :=
  mkReplicationController (meta name None annotations)
    (mkReplicationControllerSpec replicas (Some 1%positive) (Some (template labels))).

Definition rcOld := controller "rc-old" 2 (Some 3%positive) (Some 5%positive).
Definition rcNew := controller "rc-new" 3 (Some 4%positive) (Some 7%positive).
Definition rcMalformed := controller "rc-odd" 0 (Some 3%positive) (Some 6%positive).

(** A pod with the one condition Ready = True, since the instant [t]. *)
Definition readyPod (t : GoTime.Time) : Pod :=
  mkPod (meta "pod" (Some 1%positive) None)
        (mkPodStatus [mkPodCondition PodReady ConditionTrue t]).

Definition hash0 (h : gmap positive (gmap string string))
    (t : @PodTemplateSpec unit) : string := "h1".

Definition fivePods : list Pod := replicate 5 (readyPod 0).

Definition client0 : @Interface unit :=
  mkInterface (fun _ _ => inl (mkPodList fivePods))
              (fun _ _ => inl [rcOld; rcNew]).

(** The same controllers, and no pod. *)
Definition clientNoPods : @Interface unit :=
  mkInterface (fun _ _ => inl (mkPodList []))
              (fun _ _ => inl [rcOld; rcNew]).

(** Only the old controller is listed. *)
Definition clientOldOnly : @Interface unit :=
  mkInterface (fun _ _ => inl (mkPodList fivePods))
              (fun _ _ => inl [rcOld]).

(** Clients whose listings fail. *)
Definition clientPodsFail : @Interface unit :=
  mkInterface (fun _ _ => inr "timeout") (fun _ _ => inl [rcOld; rcNew]).

Definition clientRcsFail : @Interface unit :=
  mkInterface (fun _ _ => inl (mkPodList fivePods)) (fun _ _ => inr "forbidden").

(** The store in which the deployment is the object 1. *)
Definition store0 : gmap positive (@Deployment unit) := {[1%positive := deployment0]}.

(** A deployment whose template already carries the hash label. *)
Definition deploymentStamped : @Deployment unit :=
  mkDeployment (meta "web" None None)
    (mkDeploymentSpec 3 (Some 1%positive) (template (Some 4%positive))
                      "pod-template-hash")
    (mkDeploymentStatus 5).

(** Revisions beyond the range of [int64]. *)
Definition heap1 : gmap positive (gmap string string) :=
  <[8%positive := {[RevisionAnnotation := "9223372036854775808"]}]>
 (<[9%positive := {[RevisionAnnotation := "-9223372036854775809"]}]> heap0).

Definition rcTooLarge := controller "rc-large" 0 (Some 3%positive) (Some 8%positive).
Definition rcTooSmall := controller "rc-small" 0 (Some 3%positive) (Some 9%positive).

(** A controller of another namespace, and a client that lists two pods
    in the namespace [default] and fails elsewhere. *)
Definition rcElsewhere : @ReplicationController unit :=
  mkReplicationController (mkObjectMeta "rc-far" "elsewhere" 0 None None)
    (mkReplicationControllerSpec 1 (Some 1%positive) (Some (template (Some 3%positive)))).

Definition clientPartial : @Interface unit :=
  mkInterface
    (fun namespace _ =>
       if String.eqb namespace "default"
       then inl (mkPodList [readyPod 0; readyPod 99000000000])
       else inr "timeout")
    (fun _ _ => inl [rcOld; rcNew]).

(** A pod that is not ready, and a pod with no Ready-type condition. *)
Definition unreadyPod : Pod :=
  mkPod (meta "pod" (Some 1%positive) None)
        (mkPodStatus [mkPodCondition PodReady ConditionFalse 0]).

Definition scheduledPod : Pod :=
  mkPod (meta "pod" (Some 1%positive) None)
        (mkPodStatus [mkPodCondition "PodScheduled" ConditionTrue 0]).

End Scenario.

(** * Properties *)

(** ** Fixed-width integers *)

Lemma wrapI64_small z : minInt64 <= z <= maxInt64 -> wrapI64 z = z.
Proof.
  unfold wrapI64, minInt64, maxInt64. intros H.
  rewrite Z.mod_small; lia.
Qed.

Lemma wrapU64_small z : 0 <= z < 2 ^ 64 -> wrapU64 z = z.
Proof. intros H. unfold wrapU64. apply Z.mod_small. lia. Qed.

(** ** strconv.ParseInt parses exactly the decimal 64-bit integers *)

Module StrconvFacts.
Import Strconv.

Lemma byteOf_range c : 0 <= byteOf c < 256.
Proof.
  unfold byteOf. pose proof (N_ascii_bounded c). lia.
Qed.

Lemma digitVal_decimal c :
  isDecimalDigit c = true ->
  digitVal (byteOf c) = Some (byteOf c - 48) /\ 0 <= byteOf c - 48 <= 9.
Proof.
  unfold isDecimalDigit, digitVal. intros H. rewrite H. split; [done | lia].
Qed.

Lemma digitVal_not_decimal c :
  isDecimalDigit c = false ->
  digitVal (byteOf c) = None \/ exists v, digitVal (byteOf c) = Some v /\ 10 <= v.
Proof.
  unfold isDecimalDigit, digitVal. intros H. rewrite H.
  repeat case_match; eauto; right; eexists; split; eauto; lia.
Qed.

Lemma decimalValue_ge s : forall acc,
  allDecimalDigits s = true -> 0 <= acc -> acc <= decimalValue s acc.
Proof.
  induction s as [|c s IH]; intros acc Hd Hacc; simpl in *; [lia|].
  apply andb_true_iff in Hd as [Hc Hs].
  apply digitVal_decimal in Hc as [_ Hc].
  specialize (IH (10 * acc + (byteOf c - 48)) Hs). lia.
Qed.

Lemma parseUintLoop_digits s : forall n,
  allDecimalDigits s = true -> 0 <= n < 2 ^ 64 ->
  parseUintLoop 10 (2 ^ 64 - 1) s n =
    if decimalValue s n <? 2 ^ 64 then (decimalValue s n, None)
    else (2 ^ 64 - 1, Some ErrRange).
Proof.
  induction s as [|c s IH]; intros n Hd Hn; simpl in *.
  - destruct (Z.ltb_spec n (2 ^ 64)); [done | lia].
  - apply andb_true_iff in Hd as [Hc Hs].
    pose proof (decimalValue_ge s (10 * n + (byteOf c - 48)) Hs) as Hge.
    apply digitVal_decimal in Hc as [-> Hc].
    destruct (Z.leb_spec 10 (byteOf c - 48)); [lia|].
    change (cutoff64 10) with 1844674407370955162.
    destruct (Z.leb_spec 1844674407370955162 n).
    { destruct (Z.ltb_spec (decimalValue s (10 * n + (byteOf c - 48))) (2 ^ 64)); [lia | done]. }
    rewrite (wrapU64_small (n * 10)) by lia.
    destruct (Z_lt_le_dec (n * 10 + (byteOf c - 48)) (2 ^ 64)) as [Hlt | Hge'].
    + rewrite wrapU64_small by lia.
      destruct (Z.ltb_spec (n * 10 + (byteOf c - 48)) (n * 10)); [lia|].
      destruct (Z.ltb_spec (2 ^ 64 - 1) (n * 10 + (byteOf c - 48))); [lia|].
      simpl. rewrite IH by (done || lia).
      by replace (n * 10) with (10 * n) by lia.
    + assert (wrapU64 (n * 10 + (byteOf c - 48)) = n * 10 + (byteOf c - 48) - 2 ^ 64) as ->.
      { unfold wrapU64. symmetry. apply Z.mod_unique_pos with (q := 1); lia. }
      destruct (Z.ltb_spec (n * 10 + (byteOf c - 48) - 2 ^ 64) (n * 10)); [|lia].
      simpl.
      destruct (Z.ltb_spec (decimalValue s (10 * n + (byteOf c - 48))) (2 ^ 64)); [lia | done].
Qed.

Lemma parseUintLoop_not_digits s : forall n,
  allDecimalDigits s = false ->
  parseUintLoop 10 (2 ^ 64 - 1) s n = (0, Some ErrSyntax) \/
  parseUintLoop 10 (2 ^ 64 - 1) s n = (2 ^ 64 - 1, Some ErrRange).
Proof.
  induction s as [|c s IH]; intros n Hd; simpl in *; [done|].
  apply andb_false_iff in Hd as [Hc | Hs].
  - apply digitVal_not_decimal in Hc as [-> | (v & -> & Hv)]; [by left|].
    destruct (Z.leb_spec 10 v); [by left | lia].
  - destruct (digitVal (byteOf c)); [|by left].
    repeat case_match; auto.
Qed.

Lemma splitSign_eqb c r :
  splitSign (String c r) =
    if Ascii.eqb c "+" then (false, r)
    else if Ascii.eqb c "-" then (true, r)
    else (false, String c r).
Proof.
  destruct c as [[] [] [] [] [] [] [] []]; reflexivity.
Qed.

Lemma decimalValue_nonneg s : forall acc,
  allDecimalDigits s = true -> 0 <= acc -> 0 <= decimalValue s acc.
Proof. intros acc Hd Hacc. pose proof (decimalValue_ge s acc Hd Hacc). lia. Qed.

(** The unsigned part: what [ParseUint] returns on a non-empty string. *)
Lemma ParseUint_digits c r :
  allDecimalDigits (String c r) = true ->
  ParseUint (String c r) 10 64 =
    if decimalValue (String c r) 0 <? 2 ^ 64 then (decimalValue (String c r) 0, None)
    else (2 ^ 64 - 1, Some (mkNumError "ParseUint" (String c r) ErrRange)).
Proof.
  intros Hd. unfold ParseUint.
  change (2 ^ 64 - 1) with 18446744073709551615 at 1.
  change 18446744073709551615 with (2 ^ 64 - 1) at 1.
  rewrite parseUintLoop_digits by (done || lia).
  destruct (decimalValue (String c r) 0 <? 2 ^ 64); reflexivity.
Qed.

Lemma ParseUint_not_digits s :
  allDecimalDigits s = false ->
  ParseUint s 10 64 = (0, Some (mkNumError "ParseUint" s ErrSyntax)) \/
  ParseUint s 10 64 = (2 ^ 64 - 1, Some (mkNumError "ParseUint" s ErrRange)).
Proof.
  intros Hd. destruct s as [|c r]; [done|].
  unfold ParseUint.
  destruct (parseUintLoop_not_digits (String c r) 0 Hd) as [-> | ->]; auto.
Qed.


Lemma convertUnsigned_decimal s0 neg ds :
  match (match ds with
         | EmptyString => None
         | _ =>
           if allDecimalDigits ds then
             let v := if neg : bool then - decimalValue ds 0 else decimalValue ds 0 in
             if (minInt64 <=? v) && (v <=? maxInt64) then Some v else None
           else None
         end) with
  | Some v => convertUnsigned s0 neg ds 10 64 = (v, None)
  | None => exists n e, convertUnsigned s0 neg ds 10 64 = (n, Some e)
  end.
Proof.
  destruct ds as [|c r]; [unfold convertUnsigned; simpl; eauto|].
  destruct (allDecimalDigits (String c r)) eqn:Hd.
  - pose proof (decimalValue_nonneg _ 0 Hd ltac:(lia)) as Hnn.
    unfold convertUnsigned. rewrite (ParseUint_digits _ _ Hd).
    set (V := decimalValue (String c r) 0) in *.
    change (2 ^ (64 - 1)) with (2 ^ 63).
    unfold minInt64, maxInt64.
    destruct (Z.ltb_spec V (2 ^ 64)); cbn [Reason]; cbv zeta.
    + destruct neg; cbn [negb andb].
      * destruct (Z.ltb_spec (2 ^ 63) V).
        { destruct (Z.leb_spec (- 2 ^ 63) (- V)); [lia|]. cbn. eauto. }
        destruct (Z.leb_spec (- 2 ^ 63) (- V)); [|lia].
        destruct (Z.leb_spec (- V) (2 ^ 63 - 1)); [|lia]. cbn [andb].
        f_equal.
        destruct (Z.eq_dec V (2 ^ 63)) as [-> | Hne]; [reflexivity|].
        rewrite (wrapI64_small V) by (unfold minInt64, maxInt64; lia).
        apply wrapI64_small. unfold minInt64, maxInt64; lia.
      * destruct (Z.leb_spec (2 ^ 63) V).
        { destruct (Z.leb_spec V (2 ^ 63 - 1)); [lia|].
          rewrite andb_false_r. eauto. }
        destruct (Z.leb_spec (- 2 ^ 63) V); [|lia].
        destruct (Z.leb_spec V (2 ^ 63 - 1)); [|lia]. cbn [andb].
        f_equal. apply wrapI64_small. unfold minInt64, maxInt64; lia.
    + destruct neg; cbn [negb andb].
      * destruct (Z.leb_spec (- 2 ^ 63) (- V)); [lia|]. cbn. eauto.
      * destruct (Z.leb_spec V (2 ^ 63 - 1)); [lia|].
        rewrite andb_false_r. cbn. eauto.
  - unfold convertUnsigned.
    destruct (ParseUint_not_digits _ Hd) as [-> | ->]; cbn [Reason]; cbv zeta; [eauto|].
    destruct neg; cbn; eauto.
Qed.

Theorem ParseInt_decimalInt64 s :
  match decimalInt64 s with
  | Some v => ParseInt s 10 64 = (v, None)
  | None => exists n e, ParseInt s 10 64 = (n, Some e)
  end.
Proof.
  destruct s as [|c r]; [cbn; eauto|].
  unfold decimalInt64, ParseInt. rewrite splitSign_eqb.
  destruct (Ascii.eqb c "+"); [exact (convertUnsigned_decimal _ false r)|].
  destruct (Ascii.eqb c "-").
  - exact (convertUnsigned_decimal _ true r).
  - exact (convertUnsigned_decimal _ false (String c r)).
Qed.

End StrconvFacts.

(** ** The heap of maps *)

Section HeapFacts.

Implicit Types (h : gmap positive (gmap string string)) (m : gmap string string).

Lemma fresh_unallocated h : h !! fresh (dom h) = None.
Proof. apply not_elem_of_dom, is_fresh. Qed.

Lemma newMap_frame m h : h ⊆ (newMap m h).2.
Proof. apply insert_subseteq, fresh_unallocated. Qed.

Lemma newMap_fresh m h : exists l, (newMap m h).1 = Some l /\ l ∉ dom h.
Proof. exists (fresh (dom h)). split; [done | apply is_fresh]. Qed.

Lemma newMap_deref m h : deref (newMap m h).2 (newMap m h).1 = m.
Proof. unfold newMap, deref. cbn. by rewrite lookup_insert_eq. Qed.

(** A reference that is allocated reads the same in every larger heap. *)
Lemma deref_frame h h' l :
  h ⊆ h' -> l ∈ dom h -> deref h' (Some l) = deref h (Some l).
Proof.
  intros Hsub [m Hm]%elem_of_dom. unfold deref.
  by rewrite (lookup_weaken _ _ _ _ Hm Hsub), Hm.
Qed.

Lemma allocated_lookup h l m : h !! l = Some m -> allocated h (Some l).
Proof. intros Hl. unfold allocated. rewrite elem_of_dom. by exists m. Qed.


Lemma deref_frame_allocated h h' (r : mapref) :
  h ⊆ h' -> allocated h r -> deref h' r = deref h r.
Proof. destruct r as [l|]; [apply deref_frame | done]. Qed.

End HeapFacts.

(** ** Classification of the replication controllers *)

Section ClassifierFacts.

Context {PodSpec : Type} `{EqDecision PodSpec}.
Variable GetPodTemplateSpecHash :
  gmap positive (gmap string string) -> @PodTemplateSpec PodSpec -> string.

Implicit Types (h : gmap positive (gmap string string)).
Implicit Types (deployment : @Deployment PodSpec) (c : @Interface PodSpec).
Implicit Types (rc : @ReplicationController PodSpec).
Implicit Types (rcList : list (@ReplicationController PodSpec)).
Implicit Types (newRCTemplate : @PodTemplateSpec PodSpec).
Implicit Types (getRcList : @RcLister PodSpec) (getPodList : PodLister).
Implicit Types (pod : Pod) (pods : list Pod) (podList : PodList).
Implicit Types
  (maps : gmap string (@ReplicationController PodSpec) *
          gmap string (@ReplicationController PodSpec)).

(** *** The slices made from the Go maps *)

Lemma elem_of_rangeValues {A} (m : gmap string A) (x : A) :
  x ∈ rangeValues m <-> exists n, m !! n = Some x.
Proof.
  unfold rangeValues. rewrite list_elem_of_fmap. split.
  - intros [[n y] [-> Hin]]. exists n. by apply elem_of_map_to_list.
  - intros [n Hn]. exists (n, x). split; [done | by apply elem_of_map_to_list].
Qed.

Lemma rangeValues_empty {A} : rangeValues (∅ : gmap string A) = [].
Proof. unfold rangeValues. by rewrite map_to_list_empty. Qed.

(** When every controller is stored under its own name, the slice has
    no two controllers of the same name. *)
Lemma rangeValues_NoDup_names (m : gmap string (@ReplicationController PodSpec)) :
  (forall n rc, m !! n = Some rc -> rcName rc = n) ->
  NoDup (rcName <$> rangeValues m).
Proof.
  intros Hkey. unfold rangeValues.
  assert (rcName <$> (map_to_list m).*2 = (map_to_list m).*1) as ->.
  { rewrite <- list_fmap_compose. apply list_fmap_ext.
    intros i [n rc] Hi. cbn. apply Hkey, elem_of_map_to_list.
    eapply list_elem_of_lookup_2, Hi. }
  apply NoDup_fst_map_to_list.
Qed.

(** *** The loops keep [oldMapsInv] *)

Lemma oldMapsInv_empty h newRCTemplate rcList pods :
  oldMapsInv h newRCTemplate rcList pods (∅, ∅).
Proof. split; intros n rc Hn; cbn in Hn; by rewrite lookup_empty in Hn. Qed.

Lemma rcStep_inv h newRCTemplate rcList pods maps rc pod :
  rc ∈ rcList -> pod ∈ pods ->
  oldMapsInv h newRCTemplate rcList pods maps ->
  oldMapsInv h newRCTemplate rcList pods
    (rcStep h newRCTemplate (Labels (pod_ObjectMeta pod)) maps rc).
Proof.
  intros Hrc Hpod [Hall Hold]. destruct maps as [oldRCs allOldRCs].
  unfold rcStep. cbn in Hall, Hold.
  destruct (DeepEqual h (rc_Template (rc_Spec rc)) (Some newRCTemplate)) eqn:Hnew;
    [by split|].
  assert (forall n rc', <[Name (rc_ObjectMeta rc) := rc]> allOldRCs !! n = Some rc' ->
            rcName rc' = n /\ rc' ∈ rcList /\ isOld h newRCTemplate rc') as Hall'.
  { intros n rc' Hn. apply lookup_insert_Some in Hn as [[<- <-] | [_ Hn]]; eauto. }
  destruct (Matches _ _) eqn:Hm; split; cbn; try done.
  - intros n rc' Hn. apply lookup_insert_Some in Hn as [[<- <-] | [Hne Hn]].
    + repeat split; try done; [by exists pod | by rewrite lookup_insert_eq].
    + destruct (Hold n rc' Hn) as (? & ? & ? & ? & ?).
      repeat split; try done. by rewrite lookup_insert_ne.
  - intros n rc' Hn. destruct (Hold n rc' Hn) as (? & ? & ? & ? & Hsome).
    repeat split; try done.
    destruct (decide (Name (rc_ObjectMeta rc) = n)) as [-> | Hne].
    + by rewrite lookup_insert_eq.
    + by rewrite lookup_insert_ne.
Qed.

Lemma rcLoop_inv h newRCTemplate rcList pods pod (l : list ReplicationController) :
  forall maps,
    (forall rc, rc ∈ l -> rc ∈ rcList) -> pod ∈ pods ->
    oldMapsInv h newRCTemplate rcList pods maps ->
    oldMapsInv h newRCTemplate rcList pods
      (fold_left (rcStep h newRCTemplate (Labels (pod_ObjectMeta pod))) l maps).
Proof.
  induction l as [|rc l IH]; intros maps Hl Hpod Hinv; cbn; [done|].
  apply IH; [intros; apply Hl; by right | done |].
  apply rcStep_inv; [apply Hl; by left | done | done].
Qed.

Lemma podLoop_inv h newRCTemplate rcList pods (ps : list Pod) :
  forall maps,
    (forall pod, pod ∈ ps -> pod ∈ pods) ->
    oldMapsInv h newRCTemplate rcList pods maps ->
    oldMapsInv h newRCTemplate rcList pods
      (fold_left (podStep h newRCTemplate rcList) ps maps).
Proof.
  induction ps as [|pod ps IH]; intros maps Hps Hinv; cbn; [done|].
  apply IH; [intros; apply Hps; by right |].
  unfold podStep. apply rcLoop_inv; [done | apply Hps; by left | done].
Qed.

(** *** The runs of the three functions *)

Lemma GetNewRCTemplate_run deployment h :
  let template := d_Template (d_Spec deployment) in
  let copy := mkPodTemplateSpec (tmpl_ObjectMeta template) (tmpl_Spec template) in
  let stamped :=
    <[UniqueLabelKey (d_Spec deployment) := GetPodTemplateSpecHash h copy]>
      (deref h (Labels (tmpl_ObjectMeta template))) in
  GetNewRCTemplate GetPodTemplateSpecHash deployment h =
    (mkPodTemplateSpec
       (withLabels (tmpl_ObjectMeta template) (newMap stamped h).1)
       (tmpl_Spec template),
     (newMap stamped h).2).
Proof. reflexivity. Qed.

Lemma GetNewRCTemplate_frame deployment h :
  h ⊆ (GetNewRCTemplate GetPodTemplateSpecHash deployment h).2.
Proof. rewrite GetNewRCTemplate_run. apply newMap_frame. Qed.

Lemma GetOldRCsFromLists_pod_error deployment c getPodList getRcList h err :
  getPodList (deploymentNamespace deployment) (deploymentOptions h deployment) = inr err ->
  GetOldRCsFromLists GetPodTemplateSpecHash deployment c getPodList getRcList h =
    ((None, None, Some ("error listing pods: " +:+ err)), h).
Proof.
  intros Hp. unfold GetOldRCsFromLists, bind, reads, ret.
  unfold deploymentNamespace, deploymentOptions in Hp. by rewrite Hp.
Qed.

Lemma GetOldRCsFromLists_rc_error deployment c getPodList getRcList h podList err :
  getPodList (deploymentNamespace deployment) (deploymentOptions h deployment) = inl podList ->
  getRcList (deploymentNamespace deployment) (deploymentOptions h deployment) = inr err ->
  GetOldRCsFromLists GetPodTemplateSpecHash deployment c getPodList getRcList h =
    ((None, None, Some ("error listing replication controllers: " +:+ err)), h).
Proof.
  intros Hp Hr. unfold GetOldRCsFromLists, bind, reads, ret.
  unfold deploymentNamespace, deploymentOptions in Hp, Hr. by rewrite Hp, Hr.
Qed.

Lemma GetOldRCsFromLists_ok deployment c getPodList getRcList h podList rcList :
  getPodList (deploymentNamespace deployment) (deploymentOptions h deployment) = inl podList ->
  getRcList (deploymentNamespace deployment) (deploymentOptions h deployment) = inl rcList ->
  let run := GetNewRCTemplate GetPodTemplateSpecHash deployment h in
  let maps := fold_left (podStep run.2 run.1 rcList) (Items podList) (∅, ∅) in
  GetOldRCsFromLists GetPodTemplateSpecHash deployment c getPodList getRcList h =
    ((Some (rangeValues maps.1), Some (rangeValues maps.2), None), run.2).
Proof.
  intros Hp Hr. unfold GetOldRCsFromLists, bind, reads, ret.
  unfold deploymentNamespace, deploymentOptions in Hp, Hr. rewrite Hp, Hr.
  by destruct (GetNewRCTemplate GetPodTemplateSpecHash deployment h).
Qed.

Lemma GetNewRCFromList_error deployment c getRcList h err :
  getRcList (deploymentNamespace deployment) (deploymentOptions h deployment) = inr err ->
  GetNewRCFromList GetPodTemplateSpecHash deployment c getRcList h =
    ((None, Some ("error listing replication controllers: " +:+ err)), h).
Proof.
  intros Hr. unfold GetNewRCFromList, bind, reads, ret.
  unfold deploymentNamespace, deploymentOptions in Hr. by rewrite Hr.
Qed.

Lemma GetNewRCFromList_ok deployment c getRcList h rcList :
  getRcList (deploymentNamespace deployment) (deploymentOptions h deployment) = inl rcList ->
  let run := GetNewRCTemplate GetPodTemplateSpecHash deployment h in
  GetNewRCFromList GetPodTemplateSpecHash deployment c getRcList h =
    ((findNewRC run.2 run.1 rcList, None), run.2).
Proof.
  intros Hr. unfold GetNewRCFromList, bind, reads, ret.
  unfold deploymentNamespace, deploymentOptions in Hr. rewrite Hr.
  by destruct (GetNewRCTemplate GetPodTemplateSpecHash deployment h).
Qed.

Lemma findNewRC_Some h newRCTemplate rcList rc :
  findNewRC h newRCTemplate rcList = Some rc ->
  rc ∈ rcList /\ DeepEqual h (rc_Template (rc_Spec rc)) (Some newRCTemplate) = true.
Proof.
  induction rcList as [|rc' rcList IH]; cbn; [done|].
  destruct (DeepEqual h (rc_Template (rc_Spec rc')) (Some newRCTemplate)) eqn:Hnew.
  - intros [= <-]. split; [by left | done].
  - intros Hf. destruct (IH Hf). split; [by right | done].
Qed.

Lemma findNewRC_None h newRCTemplate rcList :
  findNewRC h newRCTemplate rcList = None <->
  forall rc, rc ∈ rcList -> isOld h newRCTemplate rc.
Proof.
  unfold isOld. induction rcList as [|rc' rcList IH]; cbn.
  - split; [intros _ rc Hin; by apply elem_of_nil in Hin | done].
  - destruct (DeepEqual h (rc_Template (rc_Spec rc')) (Some newRCTemplate)) eqn:Hnew.
    + split; [done|]. intros Hall. specialize (Hall rc' ltac:(by left)). congruence.
    + rewrite IH. split.
      * intros Hall rc [-> | Hin]%elem_of_cons; auto.
      * intros Hall rc Hin. apply Hall. by right.
Qed.

Lemma NoDup_fmap_eq {A B} (f : A -> B) (l : list A) x y :
  NoDup (f <$> l) -> x ∈ l -> y ∈ l -> f x = f y -> x = y.
Proof.
  induction l as [|a l IH]; intros Hnd Hx Hy Hf; [by apply elem_of_nil in Hx|].
  rewrite fmap_cons in Hnd. apply NoDup_cons in Hnd as [Hfresh Hnd].
  apply elem_of_cons in Hx as [-> | Hx]; apply elem_of_cons in Hy as [-> | Hy];
    try done; try by apply IH.
  - exfalso. apply Hfresh. rewrite Hf. by apply list_elem_of_fmap_2.
  - exfalso. apply Hfresh. rewrite <- Hf. by apply list_elem_of_fmap_2.
Qed.

(** *** With no pod listed, nothing is classified *)

Lemma GetOldRCsFromLists_no_pods deployment c getPodList getRcList h rcList :
  getPodList (deploymentNamespace deployment) (deploymentOptions h deployment)
    = inl (mkPodList []) ->
  getRcList (deploymentNamespace deployment) (deploymentOptions h deployment)
    = inl rcList ->
  (GetOldRCsFromLists GetPodTemplateSpecHash deployment c getPodList getRcList h).1 =
    (Some [], Some [], None).
Proof.
  intros Hp Hr. rewrite (GetOldRCsFromLists_ok _ _ _ _ _ _ _ Hp Hr).
  cbn. by rewrite rangeValues_empty.
Qed.

(** *** With a pod listed, [allOldRCs] holds every old controller *)

Lemma rcLoop_all_other h newRCTemplate podLabels (l : list ReplicationController) n :
  forall maps,
    n ∉ rcName <$> l ->
    (fold_left (rcStep h newRCTemplate podLabels) l maps).2 !! n = maps.2 !! n.
Proof.
  induction l as [|rc l IH]; intros maps Hn; cbn; [done|].
  rewrite fmap_cons in Hn. apply not_elem_of_cons in Hn as [Hne Hn].
  rewrite IH by done. destruct maps as [oldRCs allOldRCs]. unfold rcStep.
  destruct (DeepEqual _ _ _); [done|].
  destruct (Matches _ _); cbn; by rewrite lookup_insert_ne.
Qed.

Lemma rcLoop_all_complete h newRCTemplate podLabels (l : list ReplicationController) :
  forall maps rc,
    NoDup (rcName <$> l) -> rc ∈ l -> isOld h newRCTemplate rc ->
    (fold_left (rcStep h newRCTemplate podLabels) l maps).2 !! rcName rc = Some rc.
Proof.
  induction l as [|rc' l IH]; intros maps rc Hnd Hin Hold; [by apply elem_of_nil in Hin|].
  rewrite fmap_cons in Hnd. apply NoDup_cons in Hnd as [Hfresh Hnd].
  cbn. apply elem_of_cons in Hin as [-> | Hin]; [|by apply IH].
  rewrite rcLoop_all_other by done.
  destruct maps as [oldRCs allOldRCs]. unfold rcStep.
  unfold isOld in Hold. rewrite Hold.
  destruct (Matches _ _); cbn; apply lookup_insert_eq.
Qed.

Lemma podLoop_all_complete h newRCTemplate rcList pods rc :
  forall maps,
    pods <> [] -> NoDup (rcName <$> rcList) -> rc ∈ rcList ->
    isOld h newRCTemplate rc ->
    (fold_left (podStep h newRCTemplate rcList) pods maps).2 !! rcName rc = Some rc.
Proof.
  induction pods as [|pod pods IH] using rev_ind; intros maps Hne Hnd Hin Hold; [done|].
  rewrite fold_left_app. cbn. unfold podStep at 1.
  by apply rcLoop_all_complete.
Qed.

(** *** With unique names, [oldRCs] holds every old controller that
    selects a listed pod *)

Lemma rcLoop_old_other h newRCTemplate podLabels (l : list ReplicationController) n :
  forall maps,
    n ∉ rcName <$> l ->
    (fold_left (rcStep h newRCTemplate podLabels) l maps).1 !! n = maps.1 !! n.
Proof.
  induction l as [|rc l IH]; intros maps Hn; cbn; [done|].
  rewrite fmap_cons in Hn. apply not_elem_of_cons in Hn as [Hne Hn].
  rewrite IH by done. destruct maps as [oldRCs allOldRCs]. unfold rcStep.
  destruct (DeepEqual _ _ _); [done|].
  destruct (Matches _ _); cbn; [by rewrite lookup_insert_ne | done].
Qed.

Lemma rcLoop_old_complete h newRCTemplate pod (l : list ReplicationController) :
  forall maps rc,
    NoDup (rcName <$> l) -> rc ∈ l ->
    isOld h newRCTemplate rc -> selects h rc pod ->
    (fold_left (rcStep h newRCTemplate (Labels (pod_ObjectMeta pod))) l maps).1
      !! rcName rc = Some rc.
Proof.
  induction l as [|rc' l IH]; intros maps rc Hnd Hin Hold Hsel;
    [by apply elem_of_nil in Hin|].
  rewrite fmap_cons in Hnd. apply NoDup_cons in Hnd as [Hfresh Hnd].
  cbn. apply elem_of_cons in Hin as [-> | Hin]; [|by apply IH].
  rewrite rcLoop_old_other by done.
  destruct maps as [oldRCs allOldRCs]. unfold rcStep.
  unfold isOld in Hold. unfold selects in Hsel. rewrite Hold, Hsel.
  apply lookup_insert_eq.
Qed.

Lemma rcLoop_old_keeps h newRCTemplate podLabels rcList rc
    (l : list ReplicationController) :
  forall maps,
    NoDup (rcName <$> rcList) -> rc ∈ rcList ->
    (forall rc', rc' ∈ l -> rc' ∈ rcList) ->
    maps.1 !! rcName rc = Some rc ->
    (fold_left (rcStep h newRCTemplate podLabels) l maps).1 !! rcName rc = Some rc.
Proof.
  induction l as [|rc' l IH]; intros maps Hnd Hin Hl Hkept; cbn; [done|].
  apply IH; [done | done | intros; apply Hl; by right |].
  destruct maps as [oldRCs allOldRCs]. unfold rcStep.
  destruct (DeepEqual _ _ _); [done|].
  destruct (Matches _ _); cbn; [|done].
  destruct (decide (rcName rc' = rcName rc)) as [Heq | Hne].
  - assert (rc' = rc) as ->.
    { apply (NoDup_fmap_eq rcName rcList); [done | apply Hl; by left | done | done]. }
    apply lookup_insert_eq.
  - by rewrite lookup_insert_ne.
Qed.

Lemma podLoop_old_complete h newRCTemplate rcList rc pod pods :
  forall maps,
    NoDup (rcName <$> rcList) -> rc ∈ rcList -> pod ∈ pods ->
    isOld h newRCTemplate rc -> selects h rc pod ->
    (fold_left (podStep h newRCTemplate rcList) pods maps).1 !! rcName rc = Some rc.
Proof.
  induction pods as [|p pods IH] using rev_ind; intros maps Hnd Hin Hpod Hold Hsel;
    [by apply elem_of_nil in Hpod|].
  rewrite fold_left_app. cbn. unfold podStep at 1.
  apply elem_of_app in Hpod as [Hpod | ->%list_elem_of_singleton].
  - apply (rcLoop_old_keeps _ _ _ rcList); [done | done | done |]. by apply IH.
  - by apply rcLoop_old_complete.
Qed.

(** What [GetOldRCsFromLists] returns when the listed names are unique:
    the old controllers that select a listed pod, and, provided a pod is
    listed at all, the old controllers. *)
Lemma GetOldRCsFromLists_exact deployment c getPodList getRcList h podList rcList :
  getPodList (deploymentNamespace deployment) (deploymentOptions h deployment)
    = inl podList ->
  getRcList (deploymentNamespace deployment) (deploymentOptions h deployment)
    = inl rcList ->
  NoDup (rcName <$> rcList) ->
  let run := GetNewRCTemplate GetPodTemplateSpecHash deployment h in
  exists requiredRCs allRCs,
    (GetOldRCsFromLists GetPodTemplateSpecHash deployment c getPodList getRcList h).1
      = (Some requiredRCs, Some allRCs, None) /\
    (forall rc, rc ∈ requiredRCs <->
       rc ∈ rcList /\ isOld run.2 run.1 rc /\
       exists pod, pod ∈ Items podList /\ selects run.2 rc pod) /\
    (forall rc, rc ∈ allRCs <->
       rc ∈ rcList /\ isOld run.2 run.1 rc /\ Items podList <> []).
Proof.
  intros Hp Hr Hnd run.
  rewrite (GetOldRCsFromLists_ok _ _ _ _ _ _ _ Hp Hr). fold run.
  set (maps := fold_left (podStep run.2 run.1 rcList) (Items podList) (∅, ∅)).
  assert (oldMapsInv run.2 run.1 rcList (Items podList) maps) as [Hall Hold].
  { apply podLoop_inv; [done | apply oldMapsInv_empty]. }
  eexists _, _. split_and!; [done | |]; intros rc; rewrite elem_of_rangeValues; split.
  - intros [n Hn]. by destruct (Hold n rc Hn) as (_ & ? & ? & ? & _).
  - intros (Hin & Hisold & pod & Hpod & Hsel). exists (rcName rc).
    by apply (podLoop_old_complete _ _ _ _ pod).
  - intros [n Hn]. destruct (Hall n rc Hn) as (_ & ? & ?). split_and!; [done | done |].
    intros Hnil. subst maps. rewrite Hnil in Hn. cbn in Hn.
    by rewrite lookup_empty in Hn.
  - intros (Hin & Hisold & Hne). exists (rcName rc).
    by apply podLoop_all_complete.
Qed.

(** *** The claims on classification *)

(** C5. When both listings succeed, [GetOldRCsFromLists] returns two
    slices such that: no controller of either slice has the desired
    template, so the controller that [GetNewRCFromList] returns is in
    neither; every controller of the first slice (the old controllers
    with pods) is, by its name, a controller of the second (all old
    controllers), and is the very same controller when the listed names
    are unique; and neither slice holds two controllers of one name. *)
Theorem classify_partition deployment c getPodList getRcList h podList rcList :
  getPodList (deploymentNamespace deployment) (deploymentOptions h deployment)
    = inl podList ->
  getRcList (deploymentNamespace deployment) (deploymentOptions h deployment)
    = inl rcList ->
  let run := GetNewRCTemplate GetPodTemplateSpecHash deployment h in
  exists requiredRCs allRCs,
    GetOldRCsFromLists GetPodTemplateSpecHash deployment c getPodList getRcList h
      = ((Some requiredRCs, Some allRCs, None), run.2) /\
    (forall rc, rc ∈ allRCs \/ rc ∈ requiredRCs -> isOld run.2 run.1 rc) /\
    (forall rc,
       (GetNewRCFromList GetPodTemplateSpecHash deployment c getRcList h).1
         = (Some rc, None) ->
       (rc ∉ allRCs) /\ (rc ∉ requiredRCs)) /\
    (forall rc, rc ∈ requiredRCs ->
       exists rc', rc' ∈ allRCs /\ rcName rc' = rcName rc) /\
    (NoDup (rcName <$> rcList) -> requiredRCs ⊆ allRCs) /\
    NoDup (rcName <$> requiredRCs) /\
    NoDup (rcName <$> allRCs).
Proof.
  intros Hp Hr run.
  rewrite (GetOldRCsFromLists_ok _ _ _ _ _ _ _ Hp Hr). fold run.
  set (maps := fold_left (podStep run.2 run.1 rcList) (Items podList) (∅, ∅)).
  assert (oldMapsInv run.2 run.1 rcList (Items podList) maps) as [Hall Hold].
  { apply podLoop_inv; [done | apply oldMapsInv_empty]. }
  assert (forall rc, rc ∈ rangeValues maps.2 \/ rc ∈ rangeValues maps.1 ->
            isOld run.2 run.1 rc) as Hisold.
  { intros rc [[n Hn]%elem_of_rangeValues | [n Hn]%elem_of_rangeValues].
    - by destruct (Hall n rc Hn) as (_ & _ & ?).
    - by destruct (Hold n rc Hn) as (_ & _ & ? & _). }
  eexists _, _. split_and!.
  - done.
  - done.
  - intros rc Hfound.
    assert (findNewRC run.2 run.1 rcList = Some rc) as Hfind.
    { rewrite (GetNewRCFromList_ok _ _ _ _ _ Hr) in Hfound.
      exact (f_equal fst Hfound). }
    apply findNewRC_Some in Hfind as [_ Hnew].
    split; intros Hin.
    + specialize (Hisold rc (or_introl Hin)). unfold isOld in Hisold. congruence.
    + specialize (Hisold rc (or_intror Hin)). unfold isOld in Hisold. congruence.
  - intros rc [n Hn]%elem_of_rangeValues.
    destruct (Hold n rc Hn) as (Hname & _ & _ & _ & [rc' Hrc']).
    exists rc'. split; [apply elem_of_rangeValues; by exists n|].
    destruct (Hall n rc' Hrc') as (Hname' & _). congruence.
  - intros Hnd rc [n Hn]%elem_of_rangeValues.
    destruct (Hold n rc Hn) as (Hname & Hin & _ & _ & [rc' Hrc']).
    destruct (Hall n rc' Hrc') as (Hname' & Hin' & _).
    apply elem_of_rangeValues. exists n.
    rewrite Hrc'. f_equal.
    apply (NoDup_fmap_eq rcName rcList); [done | done | done | congruence].
  - apply rangeValues_NoDup_names. intros n rc Hn. by destruct (Hold n rc Hn).
  - apply rangeValues_NoDup_names. intros n rc Hn. by destruct (Hall n rc Hn).
Qed.

(** C8. When the listing of controllers succeeds and no listed controller
    has the desired template, [GetNewRCFromList] returns no controller
    and no error. *)
Theorem find_new_none_is_not_an_error deployment c getRcList h rcList :
  getRcList (deploymentNamespace deployment) (deploymentOptions h deployment)
    = inl rcList ->
  let run := GetNewRCTemplate GetPodTemplateSpecHash deployment h in
  (forall rc, rc ∈ rcList -> isOld run.2 run.1 rc) ->
  (GetNewRCFromList GetPodTemplateSpecHash deployment c getRcList h).1 = (None, None).
Proof.
  intros Hr run Hall. rewrite (GetNewRCFromList_ok _ _ _ _ _ Hr). cbn.
  f_equal. by apply findNewRC_None.
Qed.

(** C9. [GetNewRCTemplate], [GetOldRCsFromLists] and [GetNewRCFromList]
    write to no existing map: every map of the heap they start in is in
    the heap they end in, with the same contents, so that the maps of the
    deployment and of the listed controllers and pods read as before.
    The desired template is a copy of the deployment's template whose
    labels are a map allocated by the call: a clone of the deployment's
    labels with the hash stamped under the unique label key. *)
Theorem classifier_leaves_inputs_unchanged deployment c getPodList getRcList h :
  let run := GetNewRCTemplate GetPodTemplateSpecHash deployment h in
  let template := d_Template (d_Spec deployment) in
  h ⊆ run.2 /\
  h ⊆ (GetOldRCsFromLists GetPodTemplateSpecHash deployment c getPodList getRcList h).2 /\
  h ⊆ (GetNewRCFromList GetPodTemplateSpecHash deployment c getRcList h).2 /\
  (forall l, l ∈ dom h -> deref run.2 (Some l) = deref h (Some l)) /\
  (exists l, Labels (tmpl_ObjectMeta run.1) = Some l /\ l ∉ dom h) /\
  deref run.2 (Labels (tmpl_ObjectMeta run.1)) =
    <[UniqueLabelKey (d_Spec deployment) := GetPodTemplateSpecHash h template]>
      (deref h (Labels (tmpl_ObjectMeta template))) /\
  withLabels (tmpl_ObjectMeta run.1) (Labels (tmpl_ObjectMeta template))
    = tmpl_ObjectMeta template /\
  tmpl_Spec run.1 = tmpl_Spec template.
Proof.
  intros run template.
  assert (h ⊆ run.2) as Hframe by apply GetNewRCTemplate_frame.
  split_and!.
  - done.
  - destruct (getPodList (deploymentNamespace deployment) (deploymentOptions h deployment))
      as [podList | err] eqn:Hp.
    2: { by rewrite (GetOldRCsFromLists_pod_error _ _ _ _ _ _ Hp). }
    destruct (getRcList (deploymentNamespace deployment) (deploymentOptions h deployment))
      as [rcList | err] eqn:Hr.
    + by rewrite (GetOldRCsFromLists_ok _ _ _ _ _ _ _ Hp Hr).
    + by rewrite (GetOldRCsFromLists_rc_error _ _ _ _ _ _ _ Hp Hr).
  - destruct (getRcList (deploymentNamespace deployment) (deploymentOptions h deployment))
      as [rcList | err] eqn:Hr.
    + by rewrite (GetNewRCFromList_ok _ _ _ _ _ Hr).
    + by rewrite (GetNewRCFromList_error _ _ _ _ _ Hr).
  - intros l Hl. by apply deref_frame.
  - subst run. rewrite GetNewRCTemplate_run. cbn. eexists. split; [done | apply is_fresh].
  - subst run. rewrite GetNewRCTemplate_run. cbn [fst snd tmpl_ObjectMeta withLabels Labels].
    rewrite newMap_deref. subst template.
    by destruct (d_Template (d_Spec deployment)).
  - subst run template. rewrite GetNewRCTemplate_run. unfold withLabels. cbn.
    by destruct (tmpl_ObjectMeta (d_Template (d_Spec deployment))).
  - subst run. by rewrite GetNewRCTemplate_run.
Qed.

End ClassifierFacts.

(** ** Counting the ready pods *)

Section ReadinessFacts.

Context {PodSpec : Type} `{EqDecision PodSpec}.
Variable IsPodReady : Pod -> bool.

Implicit Types (pod : Pod) (pods : list Pod) (c : PodCondition).
Implicit Types (minReadySeconds : Z) (now : GoTime.Time).

Lemma conditionsLoop_indicator (conditions : list PodCondition)
    minReadySeconds now readyPodCount :
  conditionsLoop conditions minReadySeconds now readyPodCount =
  readyPodCount + indicator (existsb (conditionPasses minReadySeconds now) conditions).
Proof.
  induction conditions as [|c rest IH]; cbn; [unfold indicator; cbn; lia|].
  unfold conditionPasses at 1.
  destruct (String.eqb (Type_ c) PodReady); cbn [andb orb]; [|apply IH].
  destruct (_ || _); cbn [orb]; [reflexivity | apply IH].
Qed.

Lemma podLoop_indicator pods : forall readyPodCount minReadySeconds now,
  fold_left (fun readyPodCount pod =>
               if IsPodReady pod
               then conditionsLoop (Conditions (pod_Status pod))
                                   minReadySeconds now readyPodCount
               else readyPodCount)
            pods readyPodCount =
  readyPodCount + getReadyPodsCount IsPodReady pods minReadySeconds now.
Proof.
  unfold getReadyPodsCount.
  induction pods as [|pod pods IH]; intros n minReadySeconds now; cbn; [lia|].
  rewrite IH, (IH (if IsPodReady pod then _ else _)).
  destruct (IsPodReady pod); [|lia].
  rewrite (conditionsLoop_indicator _ _ _ n), (conditionsLoop_indicator _ _ _ 0). lia.
Qed.

Lemma getReadyPodsCount_cons pod pods minReadySeconds now :
  getReadyPodsCount IsPodReady (pod :: pods) minReadySeconds now =
  indicator (podPasses IsPodReady minReadySeconds now pod) +
  getReadyPodsCount IsPodReady pods minReadySeconds now.
Proof.
  unfold getReadyPodsCount at 1. cbn. rewrite podLoop_indicator.
  unfold podPasses. destruct (IsPodReady pod); cbn [andb]; [|reflexivity].
  by rewrite conditionsLoop_indicator.
Qed.

Lemma getReadyPodsCount_app pods pods' minReadySeconds now :
  getReadyPodsCount IsPodReady (pods ++ pods') minReadySeconds now =
  getReadyPodsCount IsPodReady pods minReadySeconds now +
  getReadyPodsCount IsPodReady pods' minReadySeconds now.
Proof.
  induction pods as [|pod pods IH]; [reflexivity|].
  rewrite <- app_comm_cons, !getReadyPodsCount_cons, IH. lia.
Qed.

(** The count is the number of pods that pass. *)
Lemma getReadyPodsCount_filter pods minReadySeconds now :
  getReadyPodsCount IsPodReady pods minReadySeconds now =
  Z.of_nat (length (List.filter (podPasses IsPodReady minReadySeconds now) pods)).
Proof.
  induction pods as [|pod pods IH]; [reflexivity|].
  rewrite getReadyPodsCount_cons, IH. cbn [List.filter].
  destruct (podPasses _ _ _ pod); cbn [indicator length]; lia.
Qed.

Lemma counted_iff pod minReadySeconds now :
  counted IsPodReady pod minReadySeconds now <->
  podPasses IsPodReady minReadySeconds now pod = true.
Proof.
  unfold counted. split.
  - intros Hc. specialize (Hc [] []). cbn [app] in Hc.
    rewrite getReadyPodsCount_cons in Hc.
    destruct (podPasses _ _ _ pod); [done | cbn in Hc; lia].
  - intros Hp before after.
    rewrite !getReadyPodsCount_app, getReadyPodsCount_cons, Hp. cbn. lia.
Qed.

Lemma notCounted_iff pod minReadySeconds now :
  notCounted IsPodReady pod minReadySeconds now <->
  podPasses IsPodReady minReadySeconds now pod = false.
Proof.
  unfold notCounted. split.
  - intros Hc. specialize (Hc [] []). cbn [app] in Hc.
    rewrite getReadyPodsCount_cons in Hc.
    destruct (podPasses _ _ _ pod); [cbn in Hc; lia | done].
  - intros Hp before after.
    rewrite !getReadyPodsCount_app, getReadyPodsCount_cons, Hp. cbn. lia.
Qed.

Lemma existsb_conditionPasses (conditions : list PodCondition) minReadySeconds now :
  existsb (conditionPasses minReadySeconds now) conditions = true <->
  exists c, c ∈ conditions /\ conditionPasses minReadySeconds now c = true.
Proof.
  rewrite existsb_exists. split; intros (c & Hin & Hc); exists c;
    (split; [by apply list_elem_of_In | done]).
Qed.

Lemma conditionPasses_no_grace minReadySeconds now c :
  minReadySeconds <= 0 ->
  conditionPasses minReadySeconds now c = true <-> Type_ c = PodReady.
Proof.
  intros Hmrs. unfold conditionPasses.
  destruct (Z.leb_spec minReadySeconds 0); [|lia]. cbn [orb].
  rewrite andb_true_r. apply String.eqb_eq.
Qed.

(** For a grace period that fits a [time.Duration], a Ready-type
    condition passes when its transition time is set and the grace
    period has gone by. *)
Lemma conditionPasses_grace minReadySeconds now c :
  0 < minReadySeconds <= 9223372036 ->
  conditionPasses minReadySeconds now c = true <->
  Type_ c = PodReady /\ LastTransitionTime c <> 0 /\
  LastTransitionTime c + minReadySeconds * GoTime.Second < now.
Proof.
  intros Hmrs. unfold conditionPasses.
  destruct (Z.leb_spec minReadySeconds 0); [lia|]. cbn [orb].
  rewrite wrapI64_small
    by (unfold minInt64, maxInt64, GoTime.Second; lia).
  unfold GoTime.IsZero, GoTime.Before, GoTime.Add.
  rewrite !andb_true_iff, negb_true_iff, String.eqb_eq, Z.eqb_neq, Z.ltb_lt.
  tauto.
Qed.

(** The overall condition state of Kubernetes is ready only for pods
    that have a Ready-type condition. *)
Lemma IsPodReadyConditionTrue_condition pod :
  IsPodReadyConditionTrue pod = true ->
  exists c, c ∈ Conditions (pod_Status pod) /\ Type_ c = PodReady /\
            Status c = ConditionTrue.
Proof.
  unfold IsPodReadyConditionTrue.
  destruct (List.find _ _) as [c|] eqn:Hfind; [|done].
  apply find_some in Hfind as [Hin Hty]. intros Hst.
  exists c. split_and!.
  - by apply list_elem_of_In.
  - by apply String.eqb_eq.
  - by destruct (Status c).
Qed.

(** *** The claims on readiness *)

(** C7. With [minReadySeconds <= 0] a pod is counted exactly when its
    overall condition state is ready and it has a Ready-type condition,
    whatever the transition times; the count of a list of pods is the
    number of such pods; and over no controllers at all
    [GetAvailablePodsForRCs] returns 0 and no error. *)
Theorem ready_without_grace_period pod minReadySeconds now :
  minReadySeconds <= 0 ->
  let stateReady pod :=
    IsPodReady pod = true /\
    exists c, c ∈ Conditions (pod_Status pod) /\ Type_ c = PodReady in
  (counted IsPodReady pod minReadySeconds now <-> stateReady pod) /\
  (notCounted IsPodReady pod minReadySeconds now <-> ~ stateReady pod) /\
  (forall pods,
     getReadyPodsCount IsPodReady pods minReadySeconds now =
     Z.of_nat (length (List.filter
       (fun pod => IsPodReady pod &&
                   existsb (fun c => String.eqb (Type_ c) PodReady)
                           (Conditions (pod_Status pod)))
       pods))) /\
  (forall (client : @Interface PodSpec) h,
     GetAvailablePodsForRCs IsPodReady client [] minReadySeconds now h
       = ((0, None), h)).
Proof.
  intros Hmrs stateReady.
  assert (forall pod, podPasses IsPodReady minReadySeconds now pod = true <-> stateReady pod)
    as Hpass.
  { intros p. unfold podPasses, stateReady.
    rewrite andb_true_iff, existsb_conditionPasses.
    split; intros [Hr (c & Hin & Hc)]; (split; [done|]); exists c; (split; [done|]);
      by apply (conditionPasses_no_grace minReadySeconds now). }
  split_and!.
  - by rewrite counted_iff.
  - rewrite notCounted_iff, <- Hpass. by destruct (podPasses _ _ _ pod).
  - intros pods. rewrite getReadyPodsCount_filter. do 2 f_equal.
    induction pods as [|p pods IH]; [reflexivity|]. cbn [List.filter].
    assert (podPasses IsPodReady minReadySeconds now p =
            IsPodReady p && existsb (fun c => String.eqb (Type_ c) PodReady)
                                    (Conditions (pod_Status p))) as ->.
    { unfold podPasses. f_equal.
      induction (Conditions (pod_Status p)) as [|c cs IHc]; [reflexivity|].
      cbn [existsb]. rewrite IHc. f_equal.
      unfold conditionPasses. destruct (Z.leb_spec minReadySeconds 0); [|lia].
      cbn [orb]. apply andb_true_r. }
    by rewrite IH.
  - reflexivity.
Qed.

(** C2, as the code has it.  A pod whose overall condition state is ready
    and whose Ready-type conditions all carry the zero transition time is
    not counted when [minReadySeconds > 0]. *)
Theorem zero_transition_time_not_counted pod minReadySeconds now :
  IsPodReady pod = true ->
  (forall c, c ∈ Conditions (pod_Status pod) -> Type_ c = PodReady ->
             LastTransitionTime c = 0) ->
  0 < minReadySeconds ->
  notCounted IsPodReady pod minReadySeconds now.
Proof.
  intros _ Hzero Hmrs. apply notCounted_iff. unfold podPasses.
  apply andb_false_intro2, not_true_is_false.
  intros (c & Hin & Hc)%existsb_conditionPasses.
  unfold conditionPasses in Hc.
  destruct (Z.leb_spec minReadySeconds 0); [lia|]. cbn [orb] in Hc.
  apply andb_true_iff in Hc as [Hty Hc]. apply String.eqb_eq in Hty.
  rewrite (Hzero c Hin Hty) in Hc. by cbn in Hc.
Qed.

(** C3, as the code has it.  For a pod whose overall condition state is
    ready and whose Ready-type condition carries a set transition time,
    and for a grace period [minReadySeconds > 0] that fits a
    [time.Duration]: the pod is counted exactly when the transition time
    plus the grace period is strictly before [now]. *)
Theorem ready_after_grace_period pod c minReadySeconds now :
  IsPodReady pod = true ->
  c ∈ Conditions (pod_Status pod) -> Type_ c = PodReady ->
  (forall c', c' ∈ Conditions (pod_Status pod) -> Type_ c' = PodReady ->
              LastTransitionTime c' = LastTransitionTime c) ->
  LastTransitionTime c <> 0 ->
  0 < minReadySeconds <= 9223372036 ->
  (counted IsPodReady pod minReadySeconds now <->
   LastTransitionTime c + minReadySeconds * GoTime.Second < now) /\
  (notCounted IsPodReady pod minReadySeconds now <->
   now <= LastTransitionTime c + minReadySeconds * GoTime.Second).
Proof.
  intros Hready Hin Hty Hsame Hset Hmrs.
  assert (podPasses IsPodReady minReadySeconds now pod = true <->
          LastTransitionTime c + minReadySeconds * GoTime.Second < now) as Hpass.
  { unfold podPasses. rewrite Hready. cbn [andb].
    rewrite existsb_conditionPasses. split.
    - intros (c' & Hin' & Hc').
      apply conditionPasses_grace in Hc' as (Hty' & _ & Hlt); [|done].
      by rewrite <- (Hsame c' Hin' Hty').
    - intros Hlt. exists c. split; [done|]. by apply conditionPasses_grace. }
  split.
  - by rewrite counted_iff.
  - rewrite notCounted_iff, <- Z.nlt_ge, <- Hpass.
    by destruct (podPasses _ _ _ pod).
Qed.

(** *** Listing failures while gathering the pods *)

Lemma getPodsLoop_failure (client : @Interface PodSpec)
    (rcs : list ReplicationController) h :
  (exists rc err, rc ∈ rcs /\
     ListPods client (Namespace (rc_ObjectMeta rc))
       (mkListOptions (SelectorFromSet h (rc_Selector (rc_Spec rc)))) = inr err) ->
  forall allPods, exists pods err,
    getPodsLoop client rcs allPods h = ((pods, Some ("error listing pods: " +:+ err)), h).
Proof.
  induction rcs as [|rc rcs IH]; intros (rc' & err & Hin & Hfail) allPods.
  { by apply elem_of_nil in Hin. }
  cbn. unfold bind, reads.
  destruct (ListPods client (Namespace (rc_ObjectMeta rc)) _)
    as [podList | err'] eqn:Hl.
  - apply IH. exists rc', err. split; [|done].
    apply elem_of_cons in Hin as [-> | Hin]; [congruence | done].
  - by exists allPods, err'.
Qed.

Lemma GetAvailablePodsForRCs_failure (client : @Interface PodSpec)
    (rcs : list ReplicationController) minReadySeconds now h :
  (exists rc err, rc ∈ rcs /\
     ListPods client (Namespace (rc_ObjectMeta rc))
       (mkListOptions (SelectorFromSet h (rc_Selector (rc_Spec rc)))) = inr err) ->
  exists err,
    GetAvailablePodsForRCs IsPodReady client rcs minReadySeconds now h =
      ((0, Some ("error listing pods: " +:+ err)), h).
Proof.
  intros Hfail. unfold GetAvailablePodsForRCs, getPodsForRCs, bind.
  destruct (getPodsLoop_failure client rcs h Hfail []) as (pods & err & ->).
  by exists err.
Qed.

End ReadinessFacts.

(** ** Listing failures, revisions and the scale subresource *)

Section OtherFacts.

Context {PodSpec : Type} `{EqDecision PodSpec}.
Variable GetPodTemplateSpecHash :
  gmap positive (gmap string string) -> @PodTemplateSpec PodSpec -> string.
Variable IsPodReady : Pod -> bool.

Implicit Types (h : gmap positive (gmap string string)).
Implicit Types (deployment : @Deployment PodSpec) (c : @Interface PodSpec).
Implicit Types (rc : @ReplicationController PodSpec).

(** C6. When the listing of pods or the listing of controllers fails,
    [GetOldRCsFromLists] returns two nil slices and an error; when the
    listing of the pods of one of the controllers fails,
    [GetAvailablePodsForRCs] returns the count 0 and an error.  Neither
    changes the heap. *)
Theorem listing_failure_aborts :
  (forall deployment c (getPodList : PodLister) (getRcList : @RcLister PodSpec) h,
     (exists err,
        getPodList (deploymentNamespace deployment) (deploymentOptions h deployment)
          = inr err) \/
     (exists err,
        getRcList (deploymentNamespace deployment) (deploymentOptions h deployment)
          = inr err) ->
     exists err,
       GetOldRCsFromLists GetPodTemplateSpecHash deployment c getPodList getRcList h
         = ((None, None, Some err), h)) /\
  (forall c (rcs : list (@ReplicationController PodSpec)) minReadySeconds now h,
     (exists rc err, rc ∈ rcs /\
        ListPods c (Namespace (rc_ObjectMeta rc))
          (mkListOptions (SelectorFromSet h (rc_Selector (rc_Spec rc)))) = inr err) ->
     exists err,
       GetAvailablePodsForRCs IsPodReady c rcs minReadySeconds now h
         = ((0, Some err), h)).
Proof.
  split.
  - intros deployment c getPodList getRcList h Hfail.
    destruct (getPodList (deploymentNamespace deployment) (deploymentOptions h deployment))
      as [podList | err] eqn:Hp.
    + destruct Hfail as [[err Herr] | [err Hr]]; [done|].
      rewrite (GetOldRCsFromLists_rc_error _ _ _ _ _ _ _ _ Hp Hr). eauto.
    + rewrite (GetOldRCsFromLists_pod_error _ _ _ _ _ _ _ Hp). eauto.
  - intros c rcs minReadySeconds now h Hfail.
    destruct (GetAvailablePodsForRCs_failure IsPodReady c rcs minReadySeconds now h Hfail)
      as [err ->].
    eauto.
Qed.

(** C4. [Revision] returns 0 and no error when the controller has no
    revision annotation; the number and no error when the annotation is
    a decimal 64-bit integer; and an error when it is anything else.  It
    leaves the heap as it is. *)
Theorem Revision_of_annotation rc h :
  let annotations := deref h (Annotations (rc_ObjectMeta rc)) in
  (annotations !! RevisionAnnotation = None ->
     Revision rc h = ((0, None), h)) /\
  (forall v n,
     annotations !! RevisionAnnotation = Some v ->
     Strconv.decimalInt64 v = Some n ->
     Revision rc h = ((n, None), h)) /\
  (forall v,
     annotations !! RevisionAnnotation = Some v ->
     Strconv.decimalInt64 v = None ->
     exists n e, Revision rc h = ((n, Some e), h)).
Proof.
  intros annotations. unfold Revision, bind, reads, ret. fold annotations.
  split_and!.
  - by intros ->.
  - intros v n -> Hv.
    pose proof (StrconvFacts.ParseInt_decimalInt64 v) as Hparse.
    rewrite Hv in Hparse. by rewrite Hparse.
  - intros v -> Hv.
    pose proof (StrconvFacts.ParseInt_decimalInt64 v) as Hparse.
    rewrite Hv in Hparse. destruct Hparse as (n & e & ->). eauto.
Qed.

(** C10. On a deployment of the store, [ScaleFromDeployment] returns a
    scale that carries the name, the namespace and the creation time of
    the deployment, its desired number of replicas, and as status its
    current number of replicas and its selector; the store is left as it
    is. *)
Theorem ScaleFromDeployment_fields (store : gmap positive (@Deployment PodSpec))
    (p : positive) deployment :
  store !! p = Some deployment ->
  exists scale,
    ScaleFromDeployment p store = (Some scale, store) /\
    Name (s_ObjectMeta scale) = Name (d_ObjectMeta deployment) /\
    Namespace (s_ObjectMeta scale) = Namespace (d_ObjectMeta deployment) /\
    CreationTimestamp (s_ObjectMeta scale) = CreationTimestamp (d_ObjectMeta deployment) /\
    ss_Replicas (s_Spec scale) = d_Replicas (d_Spec deployment) /\
    st_Replicas (s_Status scale) = ds_Replicas (d_Status deployment) /\
    st_Selector (s_Status scale) = d_Selector (d_Spec deployment).
Proof.
  intros Hp. unfold ScaleFromDeployment. rewrite Hp.
  eexists. split; [reflexivity|]. by cbn.
Qed.

End OtherFacts.

(** * Further properties *)

(** ** More on the classification *)

Section ClassifierMore.

Context {PodSpec : Type} `{EqDecision PodSpec}.
Variable GetPodTemplateSpecHash :
  gmap positive (gmap string string) -> @PodTemplateSpec PodSpec -> string.

Implicit Types (h : gmap positive (gmap string string)).
Implicit Types (deployment : @Deployment PodSpec) (c : @Interface PodSpec).
Implicit Types (rc : @ReplicationController PodSpec).
Implicit Types (rcList : list (@ReplicationController PodSpec)).
Implicit Types (newRCTemplate : @PodTemplateSpec PodSpec).
Implicit Types (getRcList : @RcLister PodSpec) (getPodList : PodLister).
Implicit Types (pod : Pod) (pods : list Pod) (podList : PodList).

(** The loop of [GetNewRCFromList] stops at the first controller that
    has the desired template. *)
Lemma findNewRC_first h newRCTemplate rcList rc :
  findNewRC h newRCTemplate rcList = Some rc <->
  exists before after,
    rcList = before ++ rc :: after /\
    (forall r, r ∈ before -> isOld h newRCTemplate r) /\
    DeepEqual h (rc_Template (rc_Spec rc)) (Some newRCTemplate) = true.
Proof.
  unfold isOld. induction rcList as [|rc' rcList IH]; cbn.
  - split; [done|]. intros (before & after & Heq & _). by destruct before.
  - destruct (DeepEqual h (rc_Template (rc_Spec rc')) (Some newRCTemplate)) eqn:Hnew.
    + split.
      * intros [= <-]. exists [], rcList. split_and!; [done | | done].
        intros r Hr. by apply elem_of_nil in Hr.
      * intros (before & after & Heq & Hold & Hrc).
        destruct before as [|r before]; cbn in Heq.
        { injection Heq as Heq _. by subst rc'. }
        injection Heq as Heq _. subst r.
        specialize (Hold rc' ltac:(by left)). congruence.
    + rewrite IH. split.
      * intros (before & after & -> & Hold & Hrc).
        exists (rc' :: before), after. split_and!; [done | | done].
        intros r [-> | Hr]%elem_of_cons; auto.
      * intros (before & after & Heq & Hold & Hrc).
        destruct before as [|r before]; cbn in Heq.
        { injection Heq as Heq _. subst rc'. congruence. }
        injection Heq as _ Heq. exists before, after. split_and!; [done | | done].
        intros r' Hr'. apply Hold. by right.
Qed.

(** Neither slice of [GetOldRCsFromLists] repeats a name, hence a
    controller. *)
Lemma GetOldRCsFromLists_NoDup deployment c getPodList getRcList h podList rcList :
  getPodList (deploymentNamespace deployment) (deploymentOptions h deployment)
    = inl podList ->
  getRcList (deploymentNamespace deployment) (deploymentOptions h deployment)
    = inl rcList ->
  forall requiredRCs allRCs,
    (GetOldRCsFromLists GetPodTemplateSpecHash deployment c getPodList getRcList h).1
      = (Some requiredRCs, Some allRCs, None) ->
    NoDup requiredRCs /\ NoDup allRCs.
Proof.
  intros Hp Hr requiredRCs allRCs.
  rewrite (GetOldRCsFromLists_ok _ _ _ _ _ _ _ _ Hp Hr).
  set (run := GetNewRCTemplate GetPodTemplateSpecHash deployment h).
  set (maps := fold_left (podStep run.2 run.1 rcList) (Items podList) (∅, ∅)).
  assert (oldMapsInv run.2 run.1 rcList (Items podList) maps) as [Hall Hold].
  { apply podLoop_inv; [done | apply oldMapsInv_empty]. }
  cbn. intros [= <- <-]. split; apply (NoDup_fmap_1 rcName), rangeValues_NoDup_names.
  - intros n rc Hn. by destruct (Hold n rc Hn).
  - intros n rc Hn. by destruct (Hall n rc Hn).
Qed.

(** X1. When both listings succeed and no two listed controllers have
    the same name, [GetOldRCsFromLists] returns in its first slice
    exactly the listed old controllers whose selector matches a listed
    pod, and in its second slice exactly the listed old controllers
    provided at least one pod is listed; neither slice holds a
    controller twice. *)
Theorem classification_with_unique_names
    deployment c getPodList getRcList h podList rcList :
  getPodList (deploymentNamespace deployment) (deploymentOptions h deployment)
    = inl podList ->
  getRcList (deploymentNamespace deployment) (deploymentOptions h deployment)
    = inl rcList ->
  NoDup (rcName <$> rcList) ->
  let run := GetNewRCTemplate GetPodTemplateSpecHash deployment h in
  exists requiredRCs allRCs,
    (GetOldRCsFromLists GetPodTemplateSpecHash deployment c getPodList getRcList h).1
      = (Some requiredRCs, Some allRCs, None) /\
    (forall rc, rc ∈ requiredRCs <->
       rc ∈ rcList /\ isOld run.2 run.1 rc /\
       exists pod, pod ∈ Items podList /\ selects run.2 rc pod) /\
    (forall rc, rc ∈ allRCs <->
       rc ∈ rcList /\ isOld run.2 run.1 rc /\ Items podList <> []) /\
    NoDup requiredRCs /\ NoDup allRCs.
Proof.
  intros Hp Hr Hnd run.
  destruct (GetOldRCsFromLists_exact GetPodTemplateSpecHash deployment c
              getPodList getRcList h podList rcList Hp Hr Hnd)
    as (requiredRCs & allRCs & Hrun & Hreq & Hall).
  destruct (GetOldRCsFromLists_NoDup deployment c getPodList getRcList h
              podList rcList Hp Hr requiredRCs allRCs Hrun) as [Hnd1 Hnd2].
  exists requiredRCs, allRCs. by split_and!.
Qed.

(** X2. Whatever the listings hold, [GetOldRCsFromLists] returns only
    controllers that were listed; it returns some only when a pod is
    listed, and the controllers of its first slice each select a listed
    pod. *)
Theorem classified_controllers_are_listed
    deployment c getPodList getRcList h podList rcList :
  getPodList (deploymentNamespace deployment) (deploymentOptions h deployment)
    = inl podList ->
  getRcList (deploymentNamespace deployment) (deploymentOptions h deployment)
    = inl rcList ->
  let run := GetNewRCTemplate GetPodTemplateSpecHash deployment h in
  exists requiredRCs allRCs,
    (GetOldRCsFromLists GetPodTemplateSpecHash deployment c getPodList getRcList h).1
      = (Some requiredRCs, Some allRCs, None) /\
    (forall rc, rc ∈ allRCs -> rc ∈ rcList /\ Items podList <> []) /\
    (forall rc, rc ∈ requiredRCs ->
       rc ∈ rcList /\ exists pod, pod ∈ Items podList /\ selects run.2 rc pod).
Proof.
  intros Hp Hr run.
  rewrite (GetOldRCsFromLists_ok _ _ _ _ _ _ _ _ Hp Hr). fold run.
  set (maps := fold_left (podStep run.2 run.1 rcList) (Items podList) (∅, ∅)).
  assert (oldMapsInv run.2 run.1 rcList (Items podList) maps) as [Hall Hold].
  { apply podLoop_inv; [done | apply oldMapsInv_empty]. }
  eexists _, _. split_and!; [done | |].
  - intros rc [n Hn]%elem_of_rangeValues. destruct (Hall n rc Hn) as (_ & Hin & _).
    split; [done|]. intros Hnil. subst maps. rewrite Hnil in Hn. cbn in Hn.
    by rewrite lookup_empty in Hn.
  - intros rc [n Hn]%elem_of_rangeValues.
    by destruct (Hold n rc Hn) as (_ & ? & _ & ? & _).
Qed.

(** X3. When the listing succeeds, [GetNewRCFromList] returns the
    controller [rc] exactly when [rc] is the first listed controller
    whose template equals the desired template. *)
Theorem find_new_returns_first_match deployment c getRcList h rcList rc :
  getRcList (deploymentNamespace deployment) (deploymentOptions h deployment)
    = inl rcList ->
  let run := GetNewRCTemplate GetPodTemplateSpecHash deployment h in
  (GetNewRCFromList GetPodTemplateSpecHash deployment c getRcList h).1
    = (Some rc, None) <->
  exists before after,
    rcList = before ++ rc :: after /\
    (forall r, r ∈ before -> isOld run.2 run.1 r) /\
    DeepEqual run.2 (rc_Template (rc_Spec rc)) (Some run.1) = true.
Proof.
  intros Hr run. rewrite (GetNewRCFromList_ok _ _ _ _ _ _ Hr). fold run.
  rewrite <- findNewRC_first. cbn. split; [by intros [= ->] | by intros ->].
Qed.

Lemma NoDup_of_names rcList : NoDup (rcName <$> rcList) -> NoDup rcList.
Proof. apply NoDup_fmap_1. Qed.

Lemma filter_keeps_all {A} (f : A -> bool) (l : list A) :
  (forall x, x ∈ l -> f x = true) -> List.filter f l = l.
Proof.
  induction l as [|a l IH]; intros Hall; [done|].
  cbn. rewrite (Hall a) by by left. f_equal. apply IH. intros x Hx. apply Hall. by right.
Qed.

Lemma filter_drops_one {A} (f : A -> bool) (l : list A) x :
  x ∈ l -> f x = false -> (length (List.filter f l) < length l)%nat.
Proof.
  induction l as [|a l IH]; intros Hin Hx; [by apply elem_of_nil in Hin|].
  cbn. apply elem_of_cons in Hin as [<- | Hin].
  - rewrite Hx. pose proof (List.filter_length_le f l). lia.
  - specialize (IH Hin Hx). destruct (f a); cbn; lia.
Qed.

(** X4. Classification and search agree.  With unique names and at
    least one pod listed, the slice of all old controllers is, up to
    order, the listing without the controllers that have the desired
    template; it is the whole listing when [GetNewRCFromList] finds no
    new controller, and it is shorter than the listing when it finds
    one. *)
Theorem old_controllers_complement_the_new
    deployment c getPodList getRcList h podList rcList :
  getPodList (deploymentNamespace deployment) (deploymentOptions h deployment)
    = inl podList ->
  getRcList (deploymentNamespace deployment) (deploymentOptions h deployment)
    = inl rcList ->
  NoDup (rcName <$> rcList) ->
  Items podList <> [] ->
  let run := GetNewRCTemplate GetPodTemplateSpecHash deployment h in
  let found := (GetNewRCFromList GetPodTemplateSpecHash deployment c getRcList h).1 in
  exists requiredRCs allRCs,
    (GetOldRCsFromLists GetPodTemplateSpecHash deployment c getPodList getRcList h).1
      = (Some requiredRCs, Some allRCs, None) /\
    allRCs ≡ₚ
      List.filter
        (fun rc => negb (DeepEqual run.2 (rc_Template (rc_Spec rc)) (Some run.1)))
        rcList /\
    (found = (None, None) -> allRCs ≡ₚ rcList) /\
    (forall rc, found = (Some rc, None) ->
       (length allRCs < length rcList)%nat).
Proof.
  intros Hp Hr Hnd Hne run found.
  destruct (GetOldRCsFromLists_exact GetPodTemplateSpecHash deployment c
              getPodList getRcList h podList rcList Hp Hr Hnd)
    as (requiredRCs & allRCs & Hrun & _ & Hall).
  fold run in Hall.
  assert (NoDup allRCs) as Hnd_all.
  { by destruct (GetOldRCsFromLists_NoDup deployment c getPodList getRcList h
                   podList rcList Hp Hr requiredRCs allRCs Hrun). }
  assert (allRCs ≡ₚ
            List.filter
              (fun rc => negb (DeepEqual run.2 (rc_Template (rc_Spec rc)) (Some run.1)))
              rcList) as Hperm.
  { apply NoDup_Permutation; [done | |].
    - apply NoDup_ListNoDup, List.NoDup_filter, NoDup_ListNoDup.
      by apply NoDup_of_names.
    - intros rc.
      rewrite Hall, (list_elem_of_In (List.filter _ _)), filter_In,
        <- list_elem_of_In, negb_true_iff.
      unfold isOld. tauto. }
  exists requiredRCs, allRCs. split_and!; [done | done | |].
  - intros Hfound. subst found.
    rewrite (GetNewRCFromList_ok _ _ _ _ _ _ Hr) in Hfound. fold run in Hfound.
    assert (findNewRC run.2 run.1 rcList = None) as Hnone
      by exact (f_equal fst Hfound).
    rewrite Hperm, filter_keeps_all; [done|].
    intros r Hin. rewrite findNewRC_None in Hnone.
    specialize (Hnone r Hin). unfold isOld in Hnone. by rewrite Hnone.
  - intros rc Hfound. subst found.
    rewrite (GetNewRCFromList_ok _ _ _ _ _ _ Hr) in Hfound. fold run in Hfound.
    assert (findNewRC run.2 run.1 rcList = Some rc) as Hsome
      by exact (f_equal fst Hfound).
    apply findNewRC_Some in Hsome as [Hin Hnew].
    rewrite Hperm. apply (filter_drops_one _ _ rc); [done|]. by rewrite Hnew.
Qed.

Lemma GetNewRCTemplate_fields deployment h :
  let template := d_Template (d_Spec deployment) in
  let run := GetNewRCTemplate GetPodTemplateSpecHash deployment h in
  Name (tmpl_ObjectMeta run.1) = Name (tmpl_ObjectMeta template) /\
  Namespace (tmpl_ObjectMeta run.1) = Namespace (tmpl_ObjectMeta template) /\
  CreationTimestamp (tmpl_ObjectMeta run.1)
    = CreationTimestamp (tmpl_ObjectMeta template) /\
  Annotations (tmpl_ObjectMeta run.1) = Annotations (tmpl_ObjectMeta template) /\
  tmpl_Spec run.1 = tmpl_Spec template /\
  deref run.2 (Labels (tmpl_ObjectMeta run.1)) =
    <[UniqueLabelKey (d_Spec deployment) := GetPodTemplateSpecHash h template]>
      (deref h (Labels (tmpl_ObjectMeta template))).
Proof.
  intros template run. subst run. rewrite GetNewRCTemplate_run. fold template.
  split_and!; try reflexivity.
  cbn [fst snd tmpl_ObjectMeta withLabels Labels]. rewrite newMap_deref.
  subst template. by destruct (d_Template (d_Spec deployment)).
Qed.

(** X5. The desired template equals the deployment's own template
    exactly when the labels of the deployment's template already hold
    the hash under the unique label key: a controller made from the
    template as the deployment writes it is otherwise not the new
    controller. *)
Theorem desired_template_differs_by_the_hash_label deployment h :
  let template := d_Template (d_Spec deployment) in
  let run := GetNewRCTemplate GetPodTemplateSpecHash deployment h in
  allocated h (Labels (tmpl_ObjectMeta template)) ->
  DeepEqual run.2 (Some template) (Some run.1) = true <->
  deref h (Labels (tmpl_ObjectMeta template)) !! UniqueLabelKey (d_Spec deployment)
    = Some (GetPodTemplateSpecHash h template).
Proof.
  intros template run Halloc.
  assert (h ⊆ run.2) as Hframe by apply GetNewRCTemplate_frame.
  destruct (GetNewRCTemplate_fields deployment h)
    as (Hname & Hns & Htime & Hann & Hspec & Hlabels).
  fold template run in Hname, Hns, Htime, Hann, Hspec, Hlabels.
  unfold DeepEqual, ObjectMeta_DeepEqual.
  rewrite Hname, Hns, Htime, Hann, Hspec, Hlabels,
    (deref_frame_allocated h run.2) by done.
  rewrite !(bool_decide_eq_true_2 (_ = _) eq_refl). cbn [andb].
  rewrite !andb_true_r, bool_decide_eq_true.
  split.
  - intros ->. apply lookup_insert_eq.
  - intros Hl. symmetry. by apply insert_id.
Qed.

End ClassifierMore.

(** ** More on counting the ready pods *)

Section ReadinessMore.

Context {PodSpec : Type} `{EqDecision PodSpec}.
Variable IsPodReady : Pod -> bool.

Implicit Types (pod : Pod) (pods : list Pod) (c : PodCondition).
Implicit Types (minReadySeconds : Z) (now : GoTime.Time).
Implicit Types (client : @Interface PodSpec).
Implicit Types (rc : @ReplicationController PodSpec).
Implicit Types (rcs : list (@ReplicationController PodSpec)).
Implicit Types (h : gmap positive (gmap string string)).

(** X6. The count lies between 0 and the number of pods: a pod is
    counted at most once, however many of its conditions pass. *)
Theorem ready_count_bounds pods minReadySeconds now :
  0 <= getReadyPodsCount IsPodReady pods minReadySeconds now
    <= Z.of_nat (length pods).
Proof.
  rewrite getReadyPodsCount_filter.
  pose proof (List.filter_length_le (podPasses IsPodReady minReadySeconds now) pods).
  lia.
Qed.

(** X7. The count of a concatenation is the sum of the counts, and the
    count does not depend on the order of the pods. *)
Theorem ready_count_is_additive_and_order_free pods pods' minReadySeconds now :
  getReadyPodsCount IsPodReady (pods ++ pods') minReadySeconds now =
    getReadyPodsCount IsPodReady pods minReadySeconds now +
    getReadyPodsCount IsPodReady pods' minReadySeconds now /\
  (pods ≡ₚ pods' ->
   getReadyPodsCount IsPodReady pods minReadySeconds now =
   getReadyPodsCount IsPodReady pods' minReadySeconds now).
Proof.
  split; [apply getReadyPodsCount_app|].
  induction 1 as [|pod l l' _ IH|pod pod' l|l l' l'' _ IH1 _ IH2].
  - done.
  - by rewrite !getReadyPodsCount_cons, IH.
  - rewrite !getReadyPodsCount_cons. lia.
  - by rewrite IH1.
Qed.

(** The count grows with the pods that pass. *)
Lemma getReadyPodsCount_mono pods minReadySeconds now minReadySeconds' now' :
  (forall pod, pod ∈ pods ->
     podPasses IsPodReady minReadySeconds now pod = true ->
     podPasses IsPodReady minReadySeconds' now' pod = true) ->
  getReadyPodsCount IsPodReady pods minReadySeconds now <=
  getReadyPodsCount IsPodReady pods minReadySeconds' now'.
Proof.
  induction pods as [|pod pods IH]; intros Hpass; [done|].
  rewrite !getReadyPodsCount_cons.
  assert (getReadyPodsCount IsPodReady pods minReadySeconds now <=
          getReadyPodsCount IsPodReady pods minReadySeconds' now') as Hle.
  { apply IH. intros p Hp. apply Hpass. by right. }
  specialize (Hpass pod ltac:(by left)).
  destruct (podPasses IsPodReady minReadySeconds now pod).
  - rewrite Hpass by done. lia.
  - destruct (podPasses IsPodReady minReadySeconds' now' pod); cbn; lia.
Qed.

Lemma podPasses_conditions minReadySeconds now minReadySeconds' now' pod :
  (forall c, conditionPasses minReadySeconds now c = true ->
             conditionPasses minReadySeconds' now' c = true) ->
  podPasses IsPodReady minReadySeconds now pod = true ->
  podPasses IsPodReady minReadySeconds' now' pod = true.
Proof.
  intros Hc. unfold podPasses. rewrite !andb_true_iff, !existsb_conditionPasses.
  intros [Hr (c & Hin & Hpass)]. split; [done|]. exists c. auto.
Qed.

(** X8. The count never decreases as time passes: at a later reading
    of the clock every pod that was counted is still counted. *)
Theorem ready_count_grows_with_time pods minReadySeconds now now' :
  now <= now' ->
  getReadyPodsCount IsPodReady pods minReadySeconds now <=
  getReadyPodsCount IsPodReady pods minReadySeconds now'.
Proof.
  intros Hnow. apply getReadyPodsCount_mono. intros pod _.
  apply podPasses_conditions. intros c. unfold conditionPasses.
  rewrite !andb_true_iff, !orb_true_iff, !andb_true_iff.
  unfold GoTime.Before. rewrite !Z.ltb_lt.
  intros [Hty [Hle | [Hset Hlt]]]; (split; [done|]); [by left | right].
  split; [done | lia].
Qed.

(** X9. A longer grace period never counts more pods, as long as it
    fits a [time.Duration]: for [minReadySeconds <= minReadySeconds'] and
    [minReadySeconds'] at most 9223372036 seconds the count with
    [minReadySeconds'] is at most the count with [minReadySeconds]. *)
Theorem ready_count_shrinks_with_grace_period pods minReadySeconds minReadySeconds' now :
  minReadySeconds <= minReadySeconds' <= 9223372036 ->
  getReadyPodsCount IsPodReady pods minReadySeconds' now <=
  getReadyPodsCount IsPodReady pods minReadySeconds now.
Proof.
  intros Hmrs. apply getReadyPodsCount_mono. intros pod _.
  apply podPasses_conditions. intros c.
  destruct (Z_le_gt_dec minReadySeconds' 0) as [Hle' | Hgt'].
  { rewrite !conditionPasses_no_grace by lia. done. }
  rewrite conditionPasses_grace by lia. intros (Hty & Hset & Hlt).
  destruct (Z_le_gt_dec minReadySeconds 0) as [Hle | Hgt].
  - by apply conditionPasses_no_grace.
  - apply conditionPasses_grace; [lia|]. split_and!; [done | done |].
    unfold GoTime.Second in *. nia.
Qed.

(** X10. A pod whose overall condition state is not ready, or that has
    no Ready-type condition, is never counted, whatever the grace period
    and the time. *)
Theorem unready_pods_are_never_counted pod :
  IsPodReady pod = false \/
  (forall c, c ∈ Conditions (pod_Status pod) -> Type_ c <> PodReady) ->
  forall minReadySeconds now, notCounted IsPodReady pod minReadySeconds now.
Proof.
  intros Hunready minReadySeconds now. apply notCounted_iff. unfold podPasses.
  destruct Hunready as [-> | Hnone]; [done|].
  apply andb_false_intro2, not_true_is_false.
  intros (c & Hin & Hc)%existsb_conditionPasses.
  unfold conditionPasses in Hc. apply andb_true_iff in Hc as [Hty _].
  apply String.eqb_eq in Hty. by apply (Hnone c).
Qed.

(** *** Gathering the pods of the controllers *)

Lemma getPodsLoop_listed client h (before : list ReplicationController) :
  forall rest allPods,
    (forall rc, rc ∈ before -> exists podList, podsOfRC client h rc = inl podList) ->
    getPodsLoop client (before ++ rest) allPods h =
    getPodsLoop client rest (allPods ++ concat (listedPods client h <$> before)) h.
Proof.
  induction before as [|rc before IH]; intros rest allPods Hok; cbn.
  - by rewrite app_nil_r.
  - unfold bind, reads. destruct (Hok rc ltac:(by left)) as [podList Hl].
    unfold listedPods at 1. unfold podsOfRC in Hl |- *. rewrite Hl.
    rewrite IH by (intros r Hr; apply Hok; by right).
    by rewrite app_assoc.
Qed.

(** X11. When the pods of every controller are listed without error,
    [GetAvailablePodsForRCs] returns the sum over the controllers of the
    ready pods among the pods listed for each; a pod listed for two
    controllers is counted for both. *)
Theorem available_pods_sum_over_controllers client rcs minReadySeconds now h :
  (forall rc, rc ∈ rcs -> exists podList, podsOfRC client h rc = inl podList) ->
  getPodsForRCs client rcs h = ((concat (listedPods client h <$> rcs), None), h) /\
  GetAvailablePodsForRCs IsPodReady client rcs minReadySeconds now h =
    ((foldr (fun rc total =>
               getReadyPodsCount IsPodReady (listedPods client h rc)
                                 minReadySeconds now + total)
            0 rcs,
      None), h).
Proof.
  intros Hok.
  assert (getPodsForRCs client rcs h = ((concat (listedPods client h <$> rcs), None), h))
    as Hpods.
  { unfold getPodsForRCs.
    rewrite <- (app_nil_r rcs) at 1. by rewrite getPodsLoop_listed. }
  split; [done|].
  unfold GetAvailablePodsForRCs, bind, ret. rewrite Hpods. cbn [fst snd].
  do 2 f_equal. clear. induction rcs as [|rc rcs IH]; [done|].
  cbn [fmap list_fmap concat foldr]. by rewrite getReadyPodsCount_app, IH.
Qed.

(** X12. When the listing fails for a controller and succeeds for the
    controllers before it, [getPodsForRCs] returns the pods gathered
    from those controllers together with the error of that listing, the
    controllers after it are not asked, and [GetAvailablePodsForRCs]
    returns 0 with the same error. *)
Theorem first_pod_listing_failure_is_reported
    client (before after : list ReplicationController) rc err
    minReadySeconds now h :
  (forall r, r ∈ before -> exists podList, podsOfRC client h r = inl podList) ->
  podsOfRC client h rc = inr err ->
  getPodsForRCs client (before ++ rc :: after) h =
    ((concat (listedPods client h <$> before),
      Some ("error listing pods: " +:+ err)), h) /\
  GetAvailablePodsForRCs IsPodReady client (before ++ rc :: after)
                         minReadySeconds now h =
    ((0, Some ("error listing pods: " +:+ err)), h).
Proof.
  intros Hok Hfail.
  assert (getPodsForRCs client (before ++ rc :: after) h =
            ((concat (listedPods client h <$> before),
              Some ("error listing pods: " +:+ err)), h)) as Hpods.
  { unfold getPodsForRCs. rewrite getPodsLoop_listed by done.
    cbn. unfold bind, reads. unfold podsOfRC in Hfail. by rewrite Hfail. }
  split; [done|].
  unfold GetAvailablePodsForRCs, bind, ret. by rewrite Hpods.
Qed.

End ReadinessMore.

(** ** Replica counts, revision errors and the adoption of a template *)

Module StrconvMore.
Import Strconv StrconvFacts.

Lemma wrapI64_range z : minInt64 <= wrapI64 z <= maxInt64.
Proof.
  unfold wrapI64, minInt64, maxInt64.
  pose proof (Z.mod_pos_bound (z + 2 ^ 63) (2 ^ 64) ltac:(lia)). lia.
Qed.

(** What [ParseInt] returns besides the number or the error: a number
    within the range of [int64]; with a syntax error the number 0; with a
    range error the bound on the side of the sign. *)
Lemma convertUnsigned_result s0 (neg : bool) ds :
  match convertUnsigned s0 neg ds 10 64 with
  | (n, None) => minInt64 <= n <= maxInt64
  | (n, Some e) =>
      Func e = "ParseInt" /\ Num e = s0 /\
      ((Reason e = ErrSyntax /\ n = 0) \/
       (Reason e = ErrRange /\ n = if neg then minInt64 else maxInt64))
  end.
Proof.
  assert (forall un : Z, 2 ^ 63 < un ->
    match
      (if negb neg && (2 ^ (64 - 1) <=? un)
       then (wrapI64 (2 ^ (64 - 1) - 1), Some (mkNumError "ParseInt" s0 ErrRange))
       else if neg && (2 ^ (64 - 1) <? un)
       then (wrapI64 (- wrapI64 (2 ^ (64 - 1))), Some (mkNumError "ParseInt" s0 ErrRange))
       else (if neg then wrapI64 (- wrapI64 un) else wrapI64 un, None))
    with
    | (n, None) => minInt64 <= n <= maxInt64
    | (n, Some e) =>
        Func e = "ParseInt" /\ Num e = s0 /\
        ((Reason e = ErrSyntax /\ n = 0) \/
         (Reason e = ErrRange /\ n = if neg then minInt64 else maxInt64))
    end) as Hbeyond.
  { intros un Hun. change (2 ^ (64 - 1)) with (2 ^ 63).
    destruct neg; cbn [negb andb].
    - destruct (Z.ltb_spec (2 ^ 63) un); [|lia]. cbn. auto.
    - destruct (Z.leb_spec (2 ^ 63) un); [|lia]. cbn. auto. }
  destruct ds as [|c r]; [unfold convertUnsigned; cbn; auto|].
  destruct (allDecimalDigits (String c r)) eqn:Hd.
  - pose proof (decimalValue_nonneg _ 0 Hd ltac:(lia)) as Hnn.
    unfold convertUnsigned. rewrite (ParseUint_digits _ _ Hd).
    set (V := decimalValue (String c r) 0) in *.
    destruct (Z.ltb_spec V (2 ^ 64)); cbn [Reason]; cbv zeta;
      [|apply Hbeyond; lia].
    change (2 ^ (64 - 1)) with (2 ^ 63).
    destruct neg; cbn [negb andb].
    + destruct (Z.ltb_spec (2 ^ 63) V); [cbn; auto | apply wrapI64_range].
    + destruct (Z.leb_spec (2 ^ 63) V); [cbn; auto | apply wrapI64_range].
  - unfold convertUnsigned.
    destruct (ParseUint_not_digits _ Hd) as [-> | ->]; cbn [Reason]; cbv zeta;
      [cbn; auto | apply Hbeyond; lia].
Qed.

Lemma ParseInt_result s :
  match ParseInt s 10 64 with
  | (n, None) => minInt64 <= n <= maxInt64
  | (n, Some e) =>
      Func e = "ParseInt" /\ Num e = s /\
      ((Reason e = ErrSyntax /\ n = 0) \/
       (Reason e = ErrRange /\ n = if (splitSign s).1 then minInt64 else maxInt64))
  end.
Proof.
  destruct s as [|c r]; [cbn; auto|].
  unfold ParseInt. rewrite splitSign_eqb.
  destruct (Ascii.eqb c "+"); [exact (convertUnsigned_result _ false r)|].
  destruct (Ascii.eqb c "-").
  - exact (convertUnsigned_result _ true r).
  - exact (convertUnsigned_result _ false (String c r)).
Qed.

(** Digits that write a number beyond the range of [int64] are a range
    error, with the bound on the side of the sign. *)
Lemma convertUnsigned_out_of_range s0 (neg : bool) ds :
  ds <> EmptyString -> allDecimalDigits ds = true ->
  (if neg then 2 ^ 63 < decimalValue ds 0 else 2 ^ 63 <= decimalValue ds 0) ->
  convertUnsigned s0 neg ds 10 64 =
    (if neg then minInt64 else maxInt64, Some (mkNumError "ParseInt" s0 ErrRange)).
Proof.
  intros Hne Hd Hout. destruct ds as [|c r]; [done|].
  unfold convertUnsigned. rewrite (ParseUint_digits _ _ Hd).
  set (V := decimalValue (String c r) 0) in *.
  change (2 ^ (64 - 1)) with (2 ^ 63).
  destruct (Z.ltb_spec V (2 ^ 64)); cbn [Reason]; cbv zeta; destruct neg; cbn [negb andb].
  - destruct (Z.ltb_spec (2 ^ 63) V); [reflexivity | lia].
  - destruct (Z.leb_spec (2 ^ 63) V); [reflexivity | lia].
  - reflexivity.
  - reflexivity.
Qed.

Lemma ParseInt_out_of_range s :
  (splitSign s).2 <> EmptyString -> allDecimalDigits (splitSign s).2 = true ->
  (if (splitSign s).1 then 2 ^ 63 < decimalValue (splitSign s).2 0
   else 2 ^ 63 <= decimalValue (splitSign s).2 0) ->
  ParseInt s 10 64 =
    (if (splitSign s).1 then minInt64 else maxInt64,
     Some (mkNumError "ParseInt" s ErrRange)).
Proof.
  destruct s as [|c r]; [done|].
  unfold ParseInt. rewrite splitSign_eqb.
  destruct (Ascii.eqb c "+"); [apply convertUnsigned_out_of_range|].
  destruct (Ascii.eqb c "-"); apply convertUnsigned_out_of_range.
Qed.

End StrconvMore.

Section OtherMore.

Context {PodSpec : Type} `{EqDecision PodSpec}.

Implicit Types (h : gmap positive (gmap string string)).
Implicit Types (deployment d : @Deployment PodSpec).
Implicit Types (store : gmap positive (@Deployment PodSpec)).
Implicit Types (template : @PodTemplateSpec PodSpec).
Implicit Types (rc : @ReplicationController PodSpec).
Implicit Types (rcs : list (@ReplicationController PodSpec)).

(** *** The sum of the replicas *)

Lemma wrapI64_add_l a b : wrapI64 (wrapI64 a + b) = wrapI64 (a + b).
Proof.
  unfold wrapI64. f_equal.
  replace ((a + 2 ^ 63) mod 2 ^ 64 - 2 ^ 63 + b + 2 ^ 63)
    with ((a + 2 ^ 63) mod 2 ^ 64 + b) by lia.
  rewrite Zplus_mod_idemp_l. f_equal. lia.
Qed.

Lemma replicaLoop_sum rcs : forall total,
  fold_left (fun totalReplicaCount rc =>
               wrapI64 (totalReplicaCount + rc_Replicas (rc_Spec rc)))
            rcs (wrapI64 total) =
  wrapI64 (total + totalReplicas rcs).
Proof.
  induction rcs as [|rc rcs IH]; intros total; cbn [fold_left].
  - f_equal. unfold totalReplicas. cbn [foldr]. lia.
  - rewrite wrapI64_add_l, IH. f_equal. unfold totalReplicas. cbn [foldr]. lia.
Qed.

Lemma totalReplicas_app rcs rcs' :
  totalReplicas (rcs ++ rcs') = totalReplicas rcs + totalReplicas rcs'.
Proof.
  unfold totalReplicas. induction rcs as [|rc rcs IH]; cbn [app foldr]; [done|].
  rewrite IH. lia.
Qed.

Lemma totalReplicas_perm rcs rcs' :
  rcs ≡ₚ rcs' -> totalReplicas rcs = totalReplicas rcs'.
Proof.
  unfold totalReplicas.
  induction 1 as [|rc l l' _ IH|rc rc' l|l l' l'' _ IH1 _ IH2]; cbn [foldr]; lia.
Qed.

(** X13. [GetReplicaCountForRCs] returns the sum of the desired replica
    counts reduced to the range of a 64-bit [int]: the sum itself when
    the sum lies in that range.  The result does not depend on the order
    of the controllers, and the count of a concatenation is the reduced
    sum of the counts. *)
Theorem replica_count_is_the_sum rcs rcs' :
  GetReplicaCountForRCs rcs = wrapI64 (totalReplicas rcs) /\
  (minInt64 <= totalReplicas rcs <= maxInt64 ->
   GetReplicaCountForRCs rcs = totalReplicas rcs) /\
  (rcs ≡ₚ rcs' -> GetReplicaCountForRCs rcs = GetReplicaCountForRCs rcs') /\
  GetReplicaCountForRCs (rcs ++ rcs') =
    wrapI64 (GetReplicaCountForRCs rcs + GetReplicaCountForRCs rcs').
Proof.
  assert (forall l : list (@ReplicationController PodSpec),
            GetReplicaCountForRCs l = wrapI64 (totalReplicas l)) as Hsum.
  { intros l. unfold GetReplicaCountForRCs.
    change 0 with (wrapI64 0) at 1. by rewrite replicaLoop_sum. }
  split_and!.
  - apply Hsum.
  - intros Hrange. rewrite Hsum. by apply wrapI64_small.
  - intros Hperm. by rewrite !Hsum, (totalReplicas_perm _ _ Hperm).
  - rewrite !Hsum, totalReplicas_app, wrapI64_add_l.
    rewrite (Z.add_comm (totalReplicas rcs) (wrapI64 _)), wrapI64_add_l.
    f_equal. lia.
Qed.

(** *** The errors of [Revision] *)

(** X14. When the revision annotation is present, [Revision] returns a
    number in the range of [int64].  When it returns an error, the error
    names [ParseInt] and the text of the annotation, and the number is 0
    for a syntax error and, for a range error, the smallest [int64] when
    the text starts with a minus sign and the largest otherwise. *)
Theorem Revision_error_values rc h v :
  deref h (Annotations (rc_ObjectMeta rc)) !! RevisionAnnotation = Some v ->
  exists n err,
    Revision rc h = ((n, err), h) /\
    minInt64 <= n <= maxInt64 /\
    forall e, err = Some e ->
      Strconv.Func e = "ParseInt" /\ Strconv.Num e = v /\
      ((Strconv.Reason e = Strconv.ErrSyntax /\ n = 0) \/
       (Strconv.Reason e = Strconv.ErrRange /\
        n = if (Strconv.splitSign v).1 then minInt64 else maxInt64)).
Proof.
  intros Hv. unfold Revision, bind, reads, ret. rewrite Hv.
  pose proof (StrconvMore.ParseInt_result v) as Hres.
  destruct (Strconv.ParseInt v 10 64) as [n [e|]].
  - exists n, (Some e). split; [done|]. split; [|by intros e' [= <-]].
    destruct Hres as (_ & _ & [[_ ->] | [_ ->]]); [done|].
    by destruct (Strconv.splitSign v).1.
  - exists n, None. split; [done|]. split; [done|]. by intros e [=].
Qed.

(** X15. An annotation that is a sign, or none, followed by decimal
    digits whose number lies beyond the range of [int64] makes
    [Revision] return a range error together with the bound on the side
    of the sign. *)
Theorem Revision_out_of_range rc h v :
  deref h (Annotations (rc_ObjectMeta rc)) !! RevisionAnnotation = Some v ->
  let neg := (Strconv.splitSign v).1 in
  let digits := (Strconv.splitSign v).2 in
  digits <> EmptyString -> Strconv.allDecimalDigits digits = true ->
  (if neg then 2 ^ 63 < Strconv.decimalValue digits 0
   else 2 ^ 63 <= Strconv.decimalValue digits 0) ->
  Revision rc h =
    ((if neg then minInt64 else maxInt64,
      Some (Strconv.mkNumError "ParseInt" v Strconv.ErrRange)), h).
Proof.
  intros Hv neg digits Hne Hd Hout. unfold Revision, bind, reads, ret. rewrite Hv.
  by rewrite StrconvMore.ParseInt_out_of_range.
Qed.

(** *** Adopting a template: [SetFromRCTemplate] *)

Lemma SetFromRCTemplate_run (p : positive) template store h d :
  store !! p = Some d ->
  let stripped :=
    delete (UniqueLabelKey (d_Spec d)) (deref h (Labels (tmpl_ObjectMeta template))) in
  let d' :=
    mkDeployment (d_ObjectMeta d)
      (mkDeploymentSpec (d_Replicas (d_Spec d)) (d_Selector (d_Spec d))
         (mkPodTemplateSpec
            (withLabels (tmpl_ObjectMeta template) (newMap stripped h).1)
            (tmpl_Spec template))
         (UniqueLabelKey (d_Spec d)))
      (d_Status d) in
  SetFromRCTemplate p template store h =
    ((Some p, <[p := d']> store), (newMap stripped h).2).
Proof. intros Hp. unfold SetFromRCTemplate. rewrite Hp. reflexivity. Qed.

(** X16. [SetFromRCTemplate] writes the pointed deployment and nothing
    else: the other deployments of the store stay as they are, no
    existing map is written (the labels of the given template among
    them), and of the deployment only the template changes. *)
Theorem SetFromRCTemplate_writes_only_the_template (p : positive) template store h d :
  store !! p = Some d ->
  let run := SetFromRCTemplate p template store h in
  run.1.1 = Some p /\
  h ⊆ run.2 /\
  (forall q, q <> p -> run.1.2 !! q = store !! q) /\
  exists d',
    run.1.2 !! p = Some d' /\
    d_ObjectMeta d' = d_ObjectMeta d /\
    d_Replicas (d_Spec d') = d_Replicas (d_Spec d) /\
    d_Selector (d_Spec d') = d_Selector (d_Spec d) /\
    UniqueLabelKey (d_Spec d') = UniqueLabelKey (d_Spec d) /\
    d_Status d' = d_Status d.
Proof.
  intros Hp run. subst run. rewrite (SetFromRCTemplate_run _ _ _ _ _ Hp).
  cbn [fst snd]. split_and!.
  - done.
  - apply newMap_frame.
  - intros q Hq. by rewrite lookup_insert_ne.
  - eexists. rewrite lookup_insert_eq. by split_and!.
Qed.

(** X17. After [SetFromRCTemplate] the template of the deployment has
    the pod spec and the metadata of the given template, and for labels
    a map allocated by the call that holds the labels of the given
    template except the one under the deployment's unique label key. *)
Theorem SetFromRCTemplate_strips_the_hash_label (p : positive) template store h d :
  store !! p = Some d ->
  let run := SetFromRCTemplate p template store h in
  exists d',
    run.1.2 !! p = Some d' /\
    tmpl_Spec (d_Template (d_Spec d')) = tmpl_Spec template /\
    withLabels (tmpl_ObjectMeta (d_Template (d_Spec d')))
               (Labels (tmpl_ObjectMeta template)) = tmpl_ObjectMeta template /\
    (exists l, Labels (tmpl_ObjectMeta (d_Template (d_Spec d'))) = Some l /\ l ∉ dom h) /\
    deref run.2 (Labels (tmpl_ObjectMeta (d_Template (d_Spec d')))) =
      delete (UniqueLabelKey (d_Spec d)) (deref h (Labels (tmpl_ObjectMeta template))) /\
    deref run.2 (Labels (tmpl_ObjectMeta (d_Template (d_Spec d'))))
      !! UniqueLabelKey (d_Spec d) = None /\
    (forall k, k <> UniqueLabelKey (d_Spec d) ->
       deref run.2 (Labels (tmpl_ObjectMeta (d_Template (d_Spec d')))) !! k =
       deref h (Labels (tmpl_ObjectMeta template)) !! k).
Proof.
  intros Hp run. subst run. rewrite (SetFromRCTemplate_run _ _ _ _ _ Hp).
  cbn [fst snd]. eexists. rewrite lookup_insert_eq. split; [reflexivity|].
  cbn [d_Spec d_Template tmpl_Spec tmpl_ObjectMeta withLabels Labels].
  rewrite newMap_deref. split_and!.
  - done.
  - unfold withLabels. cbn. by destruct (tmpl_ObjectMeta template).
  - eexists. split; [reflexivity | apply is_fresh].
  - done.
  - apply lookup_delete_eq.
  - intros k Hk. by rewrite lookup_delete_ne.
Qed.

(** X18. Stripping is a no-op on a template without the label, and
    adopting is idempotent.  When the labels of the given template carry
    nothing under the unique label key, the deployment ends with a
    template deeply equal to the given one; and setting the deployment
    from the same template a second time leaves a template deeply equal
    to the one the first time left. *)
Theorem SetFromRCTemplate_is_idempotent (p : positive) template store h d :
  store !! p = Some d ->
  allocated h (Labels (tmpl_ObjectMeta template)) ->
  let once := SetFromRCTemplate p template store h in
  let twice := SetFromRCTemplate p template once.1.2 once.2 in
  exists d1 d2,
    once.1.2 !! p = Some d1 /\ twice.1.2 !! p = Some d2 /\
    DeepEqual twice.2 (Some (d_Template (d_Spec d2))) (Some (d_Template (d_Spec d1)))
      = true /\
    (deref h (Labels (tmpl_ObjectMeta template)) !! UniqueLabelKey (d_Spec d) = None ->
     DeepEqual once.2 (Some (d_Template (d_Spec d1))) (Some template) = true).
Proof.
  intros Hp Halloc once twice.
  pose proof (SetFromRCTemplate_run p template store h d Hp) as Honce.
  cbv zeta in Honce. fold once in Honce.
  set (stripped := delete (UniqueLabelKey (d_Spec d))
                          (deref h (Labels (tmpl_ObjectMeta template)))) in *.
  set (d1 := mkDeployment (d_ObjectMeta d)
      (mkDeploymentSpec (d_Replicas (d_Spec d)) (d_Selector (d_Spec d))
         (mkPodTemplateSpec
            (withLabels (tmpl_ObjectMeta template) (newMap stripped h).1)
            (tmpl_Spec template))
         (UniqueLabelKey (d_Spec d)))
      (d_Status d)) in *.
  assert (once.1.2 !! p = Some d1) as Hp1 by (rewrite Honce; apply lookup_insert_eq).
  assert (once.2 = (newMap stripped h).2) as Hh1 by by rewrite Honce.
  assert (h ⊆ once.2) as Hframe1 by (rewrite Hh1; apply newMap_frame).
  pose proof (SetFromRCTemplate_run p template once.1.2 once.2 d1 Hp1) as Htwice.
  cbv zeta in Htwice. fold twice in Htwice.
  assert (deref once.2 (Labels (tmpl_ObjectMeta template))
          = deref h (Labels (tmpl_ObjectMeta template))) as Hsame1
    by by apply deref_frame_allocated.
  rewrite Hsame1 in Htwice. change (UniqueLabelKey (d_Spec d1)) with
    (UniqueLabelKey (d_Spec d)) in Htwice. fold stripped in Htwice.
  eexists d1, _. split; [done|]. split; [rewrite Htwice; apply lookup_insert_eq|].
  split.
  - rewrite Htwice. cbn [fst snd].
    unfold DeepEqual, ObjectMeta_DeepEqual.
    cbn [d1 d_Spec d_Template tmpl_Spec tmpl_ObjectMeta withLabels Labels
         Name Namespace CreationTimestamp Annotations].
    rewrite newMap_deref.
    assert (deref (newMap stripped once.2).2 (newMap stripped h).1 = stripped) as ->.
    { destruct (newMap_fresh stripped h) as (l & Hl & Hfresh).
      rewrite Hl. rewrite (deref_frame once.2).
      - rewrite Hh1, <- Hl. apply newMap_deref.
      - apply newMap_frame.
      - rewrite Hh1. unfold newMap in Hl |- *. cbn in Hl |- *.
        injection Hl as <-. rewrite dom_insert_L. set_solver. }
    by rewrite !(bool_decide_eq_true_2 (_ = _) eq_refl).
  - intros Hfree. rewrite Hh1.
    unfold DeepEqual, ObjectMeta_DeepEqual.
    cbn [d1 d_Spec d_Template tmpl_Spec tmpl_ObjectMeta withLabels Labels
         Name Namespace CreationTimestamp Annotations].
    rewrite newMap_deref, (deref_frame_allocated h) by (done || apply newMap_frame).
    subst stripped. rewrite delete_id by done.
    by rewrite !(bool_decide_eq_true_2 (_ = _) eq_refl).
Qed.

End OtherMore.

Section AdoptingTheDesiredTemplate.

Context {PodSpec : Type} `{EqDecision PodSpec}.
Variable GetPodTemplateSpecHash :
  gmap positive (gmap string string) -> @PodTemplateSpec PodSpec -> string.

Implicit Types (h : gmap positive (gmap string string)).
Implicit Types (d : @Deployment PodSpec).
Implicit Types (store : gmap positive (@Deployment PodSpec)).

(** X19. Stamping and adopting undo each other.  When the labels of the
    deployment's template carry nothing under the unique label key,
    setting the deployment from its own desired template
    ([GetNewRCTemplate]) leaves it with a template deeply equal to the
    one it had, and with its other fields as they were. *)
Theorem adopting_the_desired_template_restores_the_template
    (p : positive) store h d :
  store !! p = Some d ->
  let template := d_Template (d_Spec d) in
  allocated h (Labels (tmpl_ObjectMeta template)) ->
  deref h (Labels (tmpl_ObjectMeta template)) !! UniqueLabelKey (d_Spec d) = None ->
  let stamped := GetNewRCTemplate GetPodTemplateSpecHash d h in
  let run := SetFromRCTemplate p stamped.1 store stamped.2 in
  exists d',
    run.1.2 !! p = Some d' /\
    DeepEqual run.2 (Some (d_Template (d_Spec d'))) (Some template) = true /\
    d_ObjectMeta d' = d_ObjectMeta d /\
    d_Replicas (d_Spec d') = d_Replicas (d_Spec d) /\
    d_Selector (d_Spec d') = d_Selector (d_Spec d) /\
    UniqueLabelKey (d_Spec d') = UniqueLabelKey (d_Spec d) /\
    d_Status d' = d_Status d.
Proof.
  intros Hp template Halloc Hfree stamped run.
  assert (h ⊆ stamped.2) as Hframe1 by apply GetNewRCTemplate_frame.
  destruct (GetNewRCTemplate_fields GetPodTemplateSpecHash d h)
    as (Hname & Hns & Htime & Hann & Hspec & Hlabels).
  fold template stamped in Hname, Hns, Htime, Hann, Hspec, Hlabels.
  pose proof (SetFromRCTemplate_run p stamped.1 store stamped.2 d Hp) as Hrun.
  cbv zeta in Hrun. fold run in Hrun. rewrite Hlabels in Hrun.
  rewrite delete_insert_id in Hrun by done.
  set (labels := deref h (Labels (tmpl_ObjectMeta template))) in *.
  assert (deref (newMap labels stamped.2).2 (Labels (tmpl_ObjectMeta template))
          = labels) as Hsame.
  { apply deref_frame_allocated; [|done]. etrans; [done | apply newMap_frame]. }
  rewrite Hrun. cbn [fst snd]. eexists. rewrite lookup_insert_eq.
  split; [reflexivity|]. split_and!; try done.
  unfold DeepEqual, ObjectMeta_DeepEqual.
  cbn [d_Spec d_Template tmpl_Spec tmpl_ObjectMeta withLabels Labels
       Name Namespace CreationTimestamp Annotations].
  rewrite newMap_deref, Hsame, Hname, Hns, Htime, Hann, Hspec.
  by rewrite !(bool_decide_eq_true_2 (_ = _) eq_refl).
Qed.

End AdoptingTheDesiredTemplate.

(** ** Running the classification again *)

Section Repeatable.

Context {PodSpec : Type} `{EqDecision PodSpec}.
Variable GetPodTemplateSpecHash :
  gmap positive (gmap string string) -> @PodTemplateSpec PodSpec -> string.

Implicit Types (h : gmap positive (gmap string string)).
Implicit Types (deployment : @Deployment PodSpec) (c : @Interface PodSpec).
Implicit Types (rc : @ReplicationController PodSpec).
Implicit Types (rcList : list (@ReplicationController PodSpec)).
Implicit Types (t : @PodTemplateSpec PodSpec).
Implicit Types (getRcList : @RcLister PodSpec) (getPodList : PodLister).
Implicit Types (pod : Pod) (pods : list Pod) (podList : PodList).




End Repeatable.

(** ** The properties on the scenario *)

Section OnTheScenario.

Import Scenario.

Local Abbreviation second := 1000000000 (only parsing).

(** C1 fails on the code.  The client lists the controllers [rc-old] and
    [rc-new] and no pod: [rc-old] is listed and its template is not the
    desired one, yet the slice of all old controllers comes back empty. *)
Theorem old_all_is_empty_when_no_pod_is_listed :
  let run := GetNewRCTemplate hash0 deployment0 heap0 in
  ListPods clientNoPods (deploymentNamespace deployment0)
           (deploymentOptions heap0 deployment0) = inl (mkPodList []) /\
  ListReplicationControllers clientNoPods (deploymentNamespace deployment0)
           (deploymentOptions heap0 deployment0) = inl [rcOld; rcNew] /\
  isOld run.2 run.1 rcOld /\
  (GetOldRCsFromLists hash0 deployment0 clientNoPods
     (ListPods clientNoPods) (ListReplicationControllers clientNoPods) heap0).1
    = (Some [], Some [], None).
Proof.
  cbv zeta. split_and!; vm_compute; reflexivity.
Qed.

(** With the five pods listed, the same controllers are classified as
    the specification's scenario has it. *)
Lemma scenario_classified :
  (GetOldRCs hash0 deployment0 client0 heap0).1 = (Some [rcOld], Some [rcOld], None) /\
  (GetNewRC hash0 deployment0 client0 heap0).1 = (Some rcNew, None) /\
  (GetAvailablePodsForRCs IsPodReadyConditionTrue client0 [rcOld] 0 0 heap0).1 = (5, None) /\
  GetReplicaCountForRCs [rcOld; rcNew] = 5.
Proof. split_and!; vm_compute; reflexivity. Qed.

Lemma classify_partition_witness :
  exists requiredRCs allRCs,
    (GetOldRCs hash0 deployment0 client0 heap0).1
      = (Some requiredRCs, Some allRCs, None) /\
    requiredRCs ⊆ allRCs /\
    NoDup (rcName <$> allRCs).
Proof.
  destruct (classify_partition hash0 deployment0 client0
              (ListPods client0) (ListReplicationControllers client0) heap0
              (mkPodList fivePods) [rcOld; rcNew] eq_refl eq_refl)
    as (requiredRCs & allRCs & Hrun & _ & _ & _ & Hsub & _ & Hnd).
  exists requiredRCs, allRCs. split_and!.
  - unfold GetOldRCs. by rewrite Hrun.
  - apply Hsub. apply (bool_decide_unpack _). vm_compute. reflexivity.
  - exact Hnd.
Defined.

Lemma find_new_none_is_not_an_error_witness :
  (GetNewRC hash0 deployment0 clientOldOnly heap0).1 = (None, None).
Proof.
  apply (find_new_none_is_not_an_error hash0 deployment0 clientOldOnly
           (ListReplicationControllers clientOldOnly) heap0 [rcOld] eq_refl).
  intros rc Hin. apply list_elem_of_singleton in Hin. subst rc.
  vm_compute. reflexivity.
Defined.

Lemma classifier_leaves_inputs_unchanged_witness :
  deref (GetOldRCs hash0 deployment0 client0 heap0).2 (Some 2%positive)
    = deref heap0 (Some 2%positive).
Proof.
  destruct (classifier_leaves_inputs_unchanged hash0 deployment0 client0
              (ListPods client0) (ListReplicationControllers client0) heap0)
    as (_ & Hframe & _).
  apply deref_frame; [exact Hframe|].
  apply (bool_decide_unpack _). vm_compute. reflexivity.
Defined.

Lemma listing_failure_aborts_witness :
  (exists err,
     GetOldRCs hash0 deployment0 clientPodsFail heap0 = ((None, None, Some err), heap0)) /\
  (exists err,
     GetOldRCs hash0 deployment0 clientRcsFail heap0 = ((None, None, Some err), heap0)) /\
  (exists err,
     GetAvailablePodsForRCs IsPodReadyConditionTrue clientPodsFail [rcNew; rcOld] 30 0 heap0
       = ((0, Some err), heap0)).
Proof.
  destruct (listing_failure_aborts hash0 IsPodReadyConditionTrue) as [Hclassify Hcount].
  split_and!.
  - apply Hclassify. left. by exists "timeout".
  - apply Hclassify. right. by exists "forbidden".
  - apply Hcount. exists rcOld, "timeout". split; [|reflexivity].
    apply list_elem_of_In. simpl. auto.
Defined.

Lemma Revision_of_annotation_witness :
  Revision rcOld heap0 = ((7, None), heap0) /\
  Revision rcNew heap0 = ((0, None), heap0) /\
  (exists n e, Revision rcMalformed heap0 = ((n, Some e), heap0)).
Proof.
  split_and!.
  - destruct (Revision_of_annotation rcOld heap0) as (_ & Hint & _).
    apply (Hint "7"); vm_compute; reflexivity.
  - destruct (Revision_of_annotation rcNew heap0) as (Habsent & _ & _).
    apply Habsent. vm_compute. reflexivity.
  - destruct (Revision_of_annotation rcMalformed heap0) as (_ & _ & Hbad).
    apply (Hbad "abc"); vm_compute; reflexivity.
Defined.

Lemma ScaleFromDeployment_fields_witness :
  exists scale,
    ScaleFromDeployment 1%positive store0 = (Some scale, store0) /\
    ss_Replicas (s_Spec scale) = 3 /\
    st_Replicas (s_Status scale) = 5 /\
    st_Selector (s_Status scale) = Some 1%positive.
Proof.
  destruct (ScaleFromDeployment_fields store0 1%positive deployment0)
    as (scale & Hrun & _ & _ & _ & Hspec & Hstatus & Hselector).
  - vm_compute. reflexivity.
  - exists scale. split_and!; [exact Hrun | exact Hspec | exact Hstatus | exact Hselector].
Defined.

Lemma ready_without_grace_period_witness :
  0 <= 0 /\
  counted IsPodReadyConditionTrue (readyPod 0) 0 (100 * second) /\
  getReadyPodsCount IsPodReadyConditionTrue fivePods 0 (100 * second) = 5.
Proof.
  assert (0 <= 0) as Hle by lia.
  destruct (ready_without_grace_period (PodSpec := unit) IsPodReadyConditionTrue
              (readyPod 0) 0 (100 * second) Hle)
    as (Hcounted & _ & Hcount & _).
  split_and!.
  - exact Hle.
  - apply Hcounted. split; [reflexivity|].
    eexists. split; [apply list_elem_of_here | reflexivity].
  - rewrite Hcount. vm_compute. reflexivity.
Defined.

(** C2 fails on the code.  The pod is ready, its Ready-type condition
    carries the zero transition time, the grace period is 30 seconds: the
    pod is not counted. *)
Lemma zero_transition_time_counterexample :
  IsPodReadyConditionTrue (readyPod 0) = true /\
  Conditions (pod_Status (readyPod 0)) = [mkPodCondition PodReady ConditionTrue 0] /\
  0 < 30 /\
  getReadyPodsCount IsPodReadyConditionTrue [readyPod 0] 30 (100 * second) = 0 /\
  ~ counted IsPodReadyConditionTrue (readyPod 0) 30 (100 * second).
Proof.
  split_and!; [reflexivity | reflexivity | lia | reflexivity |].
  intros Hcounted. specialize (Hcounted [] []). vm_compute in Hcounted.
  discriminate Hcounted.
Qed.

Lemma zero_transition_time_not_counted_witness :
  notCounted IsPodReadyConditionTrue (readyPod 0) 30 (100 * second).
Proof.
  apply (zero_transition_time_not_counted IsPodReadyConditionTrue (readyPod 0) 30).
  - reflexivity.
  - intros c Hin _. apply list_elem_of_singleton in Hin. subst c. reflexivity.
  - lia.
Defined.

(** C3 fails on the code.  The pod became ready at second 1, the grace
    period is 1 second and [now] is second 2: the transition time plus
    the grace period is not after [now], yet the pod is not counted. *)
Lemma grace_period_boundary_counterexample :
  IsPodReadyConditionTrue (readyPod (1 * second)) = true /\
  Conditions (pod_Status (readyPod (1 * second)))
    = [mkPodCondition PodReady ConditionTrue (1 * second)] /\
  1 * second <> 0 /\ 0 < 1 /\
  1 * second + 1 * GoTime.Second <= 2 * second /\
  getReadyPodsCount IsPodReadyConditionTrue [readyPod (1 * second)] 1 (2 * second) = 0 /\
  ~ counted IsPodReadyConditionTrue (readyPod (1 * second)) 1 (2 * second).
Proof.
  split_and!; [reflexivity | reflexivity | lia | lia | | reflexivity |].
  - unfold GoTime.Second. lia.
  - intros Hcounted. specialize (Hcounted [] []). vm_compute in Hcounted.
    discriminate Hcounted.
Qed.

(** The example of the specification: ready since [now - 1s] with a
    grace period of 30 seconds is not counted; it is counted once [now]
    is past the transition time plus 30 seconds. *)
Lemma ready_after_grace_period_witness :
  notCounted IsPodReadyConditionTrue (readyPod (99 * second)) 30 (100 * second) /\
  counted IsPodReadyConditionTrue (readyPod (99 * second)) 30 (129 * second + 1).
Proof.
  assert (forall now,
    (counted IsPodReadyConditionTrue (readyPod (99 * second)) 30 now <->
     99 * second + 30 * GoTime.Second < now) /\
    (notCounted IsPodReadyConditionTrue (readyPod (99 * second)) 30 now <->
     now <= 99 * second + 30 * GoTime.Second)) as Hiff.
  { intros now.
    apply (ready_after_grace_period IsPodReadyConditionTrue (readyPod (99 * second))
             (mkPodCondition PodReady ConditionTrue (99 * second)) 30 now).
    - reflexivity.
    - apply list_elem_of_here.
    - reflexivity.
    - intros c' Hin _. apply list_elem_of_singleton in Hin. subst c'. reflexivity.
    - simpl. lia.
    - lia. }
  split.
  - apply (Hiff (100 * second)). unfold GoTime.Second. lia.
  - apply (Hiff (129 * second + 1)). unfold GoTime.Second. lia.
Defined.

(** A grace period beyond the range of [time.Duration] wraps around:
    with [9223372037] seconds the duration is negative and the pod is
    counted at once. *)
Lemma grace_period_beyond_duration :
  wrapI64 (9223372037 * GoTime.Second) < 0 /\
  getReadyPodsCount IsPodReadyConditionTrue [readyPod (99 * second)]
                    9223372037 (100 * second) = 1.
Proof. split; [vm_compute | vm_compute]; reflexivity. Qed.

(** Names are unique within a namespace.  Were a listing to return two
    controllers of one name, the old controllers with pods and all old
    controllers would agree on the names only: each Go map keeps the last
    controller stored under the name. *)
Lemma same_name_listed_twice :
  let rcA := controller "rc" 1 (Some 3%positive) None in
  let rcB := mkReplicationController (meta "rc" None None)
               (mkReplicationControllerSpec 1 (Some 3%positive)
                  (Some (template (Some 3%positive)))) in
  (GetOldRCsFromLists hash0 deployment0 client0
     (fun _ _ => inl (mkPodList [readyPod 0])) (fun _ _ => inl [rcA; rcB]) heap0).1
    = (Some [rcA], Some [rcB], None).
Proof. vm_compute. reflexivity. Qed.

End OnTheScenario.

(** ** The further properties on the scenario *)

Section MoreOnTheScenario.

Import Scenario.

Local Abbreviation second := 1000000000 (only parsing).

Local Ltac allocated_in_scenario :=
  first [exact I | eapply allocated_lookup; reflexivity].


Lemma scenario_names_unique : NoDup (rcName <$> [rcOld; rcNew]).
Proof. apply (bool_decide_unpack _). vm_compute. reflexivity. Qed.

Lemma classification_with_unique_names_witness :
  exists requiredRCs allRCs,
    (GetOldRCs hash0 deployment0 client0 heap0).1
      = (Some requiredRCs, Some allRCs, None) /\
    rcOld ∈ allRCs /\ rcOld ∈ requiredRCs /\ rcNew ∉ allRCs.
Proof.
  destruct (classification_with_unique_names hash0 deployment0 client0
              (ListPods client0) (ListReplicationControllers client0) heap0
              (mkPodList fivePods) [rcOld; rcNew] eq_refl eq_refl scenario_names_unique)
    as (requiredRCs & allRCs & Hrun & Hreq & Hall & _).
  exists requiredRCs, allRCs. split_and!.
  - exact Hrun.
  - apply Hall. split_and!; [by left | vm_compute; reflexivity | done].
  - apply Hreq. split_and!; [by left | vm_compute; reflexivity |].
    exists (readyPod 0). split; [by left | vm_compute; reflexivity].
  - intros Hin. apply Hall in Hin as (_ & Hold & _).
    vm_compute in Hold. discriminate Hold.
Defined.

Lemma classified_controllers_are_listed_witness :
  exists requiredRCs allRCs,
    (GetOldRCs hash0 deployment0 client0 heap0).1
      = (Some requiredRCs, Some allRCs, None) /\
    (forall rc, rc ∈ allRCs -> rc ∈ [rcOld; rcNew]).
Proof.
  destruct (classified_controllers_are_listed hash0 deployment0 client0
              (ListPods client0) (ListReplicationControllers client0) heap0
              (mkPodList fivePods) [rcOld; rcNew] eq_refl eq_refl)
    as (requiredRCs & allRCs & Hrun & Hall & _).
  exists requiredRCs, allRCs. split; [exact Hrun|].
  intros rc Hin. by destruct (Hall rc Hin).
Defined.

Lemma find_new_returns_first_match_witness :
  (GetNewRC hash0 deployment0 client0 heap0).1 = (Some rcNew, None).
Proof.
  apply (find_new_returns_first_match hash0 deployment0 client0
           (ListReplicationControllers client0) heap0 [rcOld; rcNew] rcNew eq_refl).
  exists [rcOld], []. split_and!.
  - reflexivity.
  - intros r Hr. apply list_elem_of_singleton in Hr. subst r. vm_compute. reflexivity.
  - vm_compute. reflexivity.
Defined.

Lemma old_controllers_complement_the_new_witness :
  exists requiredRCs allRCs,
    (GetOldRCs hash0 deployment0 clientOldOnly heap0).1
      = (Some requiredRCs, Some allRCs, None) /\
    allRCs ≡ₚ [rcOld].
Proof.
  assert (NoDup (rcName <$> [rcOld])) as Hnd
    by (apply (bool_decide_unpack _); vm_compute; reflexivity).
  assert (Items (mkPodList fivePods) <> []) as Hne by done.
  destruct (old_controllers_complement_the_new hash0 deployment0 clientOldOnly
              (ListPods clientOldOnly) (ListReplicationControllers clientOldOnly)
              heap0 (mkPodList fivePods) [rcOld] eq_refl eq_refl Hnd Hne)
    as (requiredRCs & allRCs & Hrun & _ & Hnone & _).
  exists requiredRCs, allRCs. split; [exact Hrun|].
  apply Hnone. vm_compute. reflexivity.
Defined.

Lemma desired_template_differs_by_the_hash_label_witness :
  let run := GetNewRCTemplate hash0 deploymentStamped heap0 in
  DeepEqual run.2 (Some (d_Template (d_Spec deploymentStamped))) (Some run.1) = true.
Proof.
  apply (desired_template_differs_by_the_hash_label hash0 deploymentStamped heap0).
  - allocated_in_scenario.
  - vm_compute. reflexivity.
Defined.

Lemma ready_count_is_additive_and_order_free_witness :
  getReadyPodsCount IsPodReadyConditionTrue [unreadyPod; readyPod 0] 0 0 =
  getReadyPodsCount IsPodReadyConditionTrue [readyPod 0; unreadyPod] 0 0.
Proof.
  apply (ready_count_is_additive_and_order_free IsPodReadyConditionTrue
           [unreadyPod; readyPod 0] [readyPod 0; unreadyPod] 0 0).
  apply perm_swap.
Defined.

Lemma ready_count_grows_with_time_witness :
  getReadyPodsCount IsPodReadyConditionTrue
    [readyPod (99 * second); readyPod (10 * second)] 30 (100 * second) <=
  getReadyPodsCount IsPodReadyConditionTrue
    [readyPod (99 * second); readyPod (10 * second)] 30 (130 * second).
Proof.
  apply (ready_count_grows_with_time IsPodReadyConditionTrue). lia.
Defined.

Lemma ready_count_shrinks_with_grace_period_witness :
  getReadyPodsCount IsPodReadyConditionTrue
    [readyPod (99 * second); readyPod (10 * second)] 30 (100 * second) <=
  getReadyPodsCount IsPodReadyConditionTrue
    [readyPod (99 * second); readyPod (10 * second)] 0 (100 * second).
Proof.
  apply (ready_count_shrinks_with_grace_period IsPodReadyConditionTrue). lia.
Defined.

Lemma unready_pods_are_never_counted_witness :
  notCounted IsPodReadyConditionTrue unreadyPod 0 (100 * second) /\
  notCounted IsPodReadyConditionTrue scheduledPod 0 (100 * second).
Proof.
  split.
  - apply (unready_pods_are_never_counted IsPodReadyConditionTrue unreadyPod).
    left. reflexivity.
  - apply (unready_pods_are_never_counted IsPodReadyConditionTrue scheduledPod).
    right. intros c Hin. apply list_elem_of_singleton in Hin. subst c. discriminate.
Defined.

Lemma available_pods_sum_over_controllers_witness :
  GetAvailablePodsForRCs IsPodReadyConditionTrue client0 [rcOld; rcNew] 0 0 heap0
    = ((10, None), heap0).
Proof.
  destruct (available_pods_sum_over_controllers IsPodReadyConditionTrue client0
              [rcOld; rcNew] 0 0 heap0) as [_ Hsum].
  - intros rc _. by exists (mkPodList fivePods).
  - rewrite Hsum. vm_compute. reflexivity.
Defined.

Lemma first_pod_listing_failure_is_reported_witness :
  getPodsForRCs clientPartial [rcOld; rcElsewhere; rcNew] heap0 =
    (([readyPod 0; readyPod (99 * second)], Some "error listing pods: timeout"), heap0) /\
  GetAvailablePodsForRCs IsPodReadyConditionTrue clientPartial
    [rcOld; rcElsewhere; rcNew] 0 0 heap0
    = ((0, Some "error listing pods: timeout"), heap0).
Proof.
  apply (first_pod_listing_failure_is_reported IsPodReadyConditionTrue clientPartial
           [rcOld] [rcNew] rcElsewhere "timeout" 0 0 heap0).
  - intros r Hr. apply list_elem_of_singleton in Hr. subst r.
    eexists. reflexivity.
  - reflexivity.
Defined.

Lemma replica_count_is_the_sum_witness :
  GetReplicaCountForRCs [rcNew; rcOld; rcMalformed] = 5 /\
  GetReplicaCountForRCs [rcNew; rcOld] = GetReplicaCountForRCs [rcOld; rcNew].
Proof.
  destruct (replica_count_is_the_sum [rcNew; rcOld; rcMalformed] [])
    as (_ & Hsum & _ & _).
  destruct (replica_count_is_the_sum [rcNew; rcOld] [rcOld; rcNew])
    as (_ & _ & Hperm & _).
  split.
  - rewrite Hsum; [reflexivity|]. vm_compute. split; discriminate.
  - apply Hperm, perm_swap.
Defined.

Lemma Revision_error_values_witness :
  exists n err,
    Revision rcMalformed heap0 = ((n, err), heap0) /\ minInt64 <= n <= maxInt64.
Proof.
  destruct (Revision_error_values rcMalformed heap0 "abc")
    as (n & err & Hrun & Hrange & _).
  - vm_compute. reflexivity.
  - by exists n, err.
Defined.

Lemma Revision_out_of_range_witness :
  Revision rcTooLarge heap1 =
    ((maxInt64,
      Some (Strconv.mkNumError "ParseInt" "9223372036854775808" Strconv.ErrRange)),
     heap1) /\
  Revision rcTooSmall heap1 =
    ((minInt64,
      Some (Strconv.mkNumError "ParseInt" "-9223372036854775809" Strconv.ErrRange)),
     heap1).
Proof.
  split.
  - apply (Revision_out_of_range rcTooLarge heap1 "9223372036854775808").
    + vm_compute. reflexivity.
    + discriminate.
    + vm_compute. reflexivity.
    + vm_compute. discriminate.
  - apply (Revision_out_of_range rcTooSmall heap1 "-9223372036854775809").
    + vm_compute. reflexivity.
    + discriminate.
    + vm_compute. reflexivity.
    + vm_compute. reflexivity.
Defined.

Lemma SetFromRCTemplate_writes_only_the_template_witness :
  let run := SetFromRCTemplate 1%positive (template (Some 3%positive)) store0 heap0 in
  run.1.1 = Some 1%positive /\ heap0 ⊆ run.2.
Proof.
  destruct (SetFromRCTemplate_writes_only_the_template 1%positive
              (template (Some 3%positive)) store0 heap0 deployment0)
    as (Hptr & Hframe & _).
  - vm_compute. reflexivity.
  - split; [exact Hptr | exact Hframe].
Defined.

Lemma SetFromRCTemplate_strips_the_hash_label_witness :
  let run := SetFromRCTemplate 1%positive (template (Some 3%positive)) store0 heap0 in
  exists d',
    run.1.2 !! 1%positive = Some d' /\
    deref run.2 (Labels (tmpl_ObjectMeta (d_Template (d_Spec d')))) = appx.
Proof.
  destruct (SetFromRCTemplate_strips_the_hash_label 1%positive
              (template (Some 3%positive)) store0 heap0 deployment0)
    as (d' & Hd' & _ & _ & _ & Hlabels & _).
  - vm_compute. reflexivity.
  - exists d'. split; [exact Hd'|]. rewrite Hlabels. vm_compute. reflexivity.
Defined.

Lemma adopting_the_desired_template_restores_the_template_witness :
  let stamped := GetNewRCTemplate hash0 deployment0 heap0 in
  let run := SetFromRCTemplate 1%positive stamped.1 store0 stamped.2 in
  exists d',
    run.1.2 !! 1%positive = Some d' /\
    DeepEqual run.2 (Some (d_Template (d_Spec d')))
              (Some (d_Template (d_Spec deployment0))) = true.
Proof.
  destruct (adopting_the_desired_template_restores_the_template hash0
              1%positive store0 heap0 deployment0)
    as (d' & Hd' & Hequal & _).
  - vm_compute. reflexivity.
  - allocated_in_scenario.
  - vm_compute. reflexivity.
  - exists d'. split; [exact Hd' | exact Hequal].
Defined.

Lemma SetFromRCTemplate_is_idempotent_witness :
  let once := SetFromRCTemplate 1%positive (template (Some 3%positive)) store0 heap0 in
  let twice := SetFromRCTemplate 1%positive (template (Some 3%positive))
                 once.1.2 once.2 in
  exists d1 d2,
    once.1.2 !! 1%positive = Some d1 /\ twice.1.2 !! 1%positive = Some d2 /\
    DeepEqual twice.2 (Some (d_Template (d_Spec d2))) (Some (d_Template (d_Spec d1)))
      = true.
Proof.
  destruct (SetFromRCTemplate_is_idempotent 1%positive (template (Some 3%positive))
              store0 heap0 deployment0)
    as (d1 & d2 & H1 & H2 & Hequal & _).
  - vm_compute. reflexivity.
  - allocated_in_scenario.
  - exists d1, d2. split_and!; [exact H1 | exact H2 | exact Hequal].
Defined.


End MoreOnTheScenario.
